(** * prompt_formatter: the meeting-report prompt formatter

    A shallow embedding of [prompt_formatter.py].  The program is a Tk form:
    the widgets' contents are the state, the file dialogs and the file system
    are inputs, the message boxes are the visible events.  Text is modelled as
    [string] (characters are the code points below 256). *)

From Stdlib Require Import Bool Arith List Lia.
From Stdlib Require Import Ascii String DecimalString.
Import ListNotations.
Open Scope string_scope.

(** ** Python [str] operations used by the program *)

Module PyStr.

(** [c in s] for a single character. *)
Fixpoint char_in (c : ascii) (s : string) : bool :=
  match s with
  | EmptyString => false
  | String d s' => Ascii.eqb c d || char_in c s'
  end.

(** [s.startswith(pre)]. *)
Fixpoint startswith (pre s : string) : bool :=
  match pre with
  | EmptyString => true
  | String a pre' =>
      match s with
      | EmptyString => false
      | String b s' => Ascii.eqb a b && startswith pre' s'
      end
  end.

(** [sub in s]. *)
Fixpoint contains (sub s : string) : bool :=
  startswith sub s
  || match s with
     | EmptyString => false
     | String _ s' => contains sub s'
     end.

(** The scan of [s.replace(old, new)] for a non-empty [old]: left to right,
    non-overlapping; [skip] counts the characters of a match still to be
    passed over. *)
Fixpoint replace_from (old new : string) (skip : nat) (s : string) : string :=
  match s with
  | EmptyString => EmptyString
  | String c s' =>
      match skip with
      | S k => replace_from old new k s'
      | O =>
          if startswith old s
          then new ++ replace_from old new (length old - 1) s'
          else String c (replace_from old new 0 s')
      end
  end.

(** With an empty [old], Python puts [new] before every character and at
    the end. *)
Fixpoint intersperse (new s : string) : string :=
  match s with
  | EmptyString => EmptyString
  | String c s' => String c (new ++ intersperse new s')
  end.

(** [s.replace(old, new)]. *)
Definition replace (old new s : string) : string :=
  match old with
  | EmptyString => new ++ intersperse new s
  | String _ _ => replace_from old new 0 s
  end.

(** [str.isspace] on one character: TAB, LF, VT, FF, CR, the separators
    FS, GS, RS, US, the space, NEL and the no-break space. *)
Definition isspace (c : ascii) : bool :=
  let n := nat_of_ascii c in
  ((9 <=? n) && (n <=? 13) || (28 <=? n) && (n <=? 32)
   || (n =? 133) || (n =? 160))%nat.

Fixpoint lstrip (s : string) : string :=
  match s with
  | EmptyString => EmptyString
  | String c s' => if isspace c then lstrip s' else s
  end.

Fixpoint rstrip (s : string) : string :=
  match s with
  | EmptyString => EmptyString
  | String c s' =>
      match rstrip s' with
      | EmptyString => if isspace c then EmptyString else String c EmptyString
      | r => String c r
      end
  end.

(** [s.strip()]. *)
Definition strip (s : string) : string := rstrip (lstrip s).

(** Truth value of a string: non-empty. *)
Definition truthy (s : string) : bool :=
  match s with
  | EmptyString => false
  | String _ _ => true
  end.

(** [str(n)] for a non-negative integer. *)
Definition str_of_nat (n : nat) : string :=
  NilEmpty.string_of_uint (Nat.to_uint n).

(** [os.path.basename] (POSIX): what follows the last slash. *)
Fixpoint basename (p : string) : string :=
  match p with
  | EmptyString => EmptyString
  | String c p' =>
      if char_in "/"%char p' then basename p'
      else if Ascii.eqb c "/"%char then p'
      else p
  end.

Definition head_char (s : string) : option ascii :=
  match s with
  | EmptyString => None
  | String c _ => Some c
  end.

Fixpoint last_char (s : string) : option ascii :=
  match s with
  | EmptyString => None
  | String c s' =>
      match last_char s' with
      | None => Some c
      | Some d => Some d
      end
  end.

End PyStr.

Import PyStr.

(** ** The base prompt template *)

Definition dquote : string := String (ascii_of_nat 34) EmptyString.
Definition nl : string := String (ascii_of_nat 10) EmptyString.

Definition PROMPT_TEMPLATE : string :=
  "
## Prompt for Generating Official Meeting Reports

**Role:** You are an AI assistant specialized in processing official meeting records and generating accurate, objective summaries. Your primary goal is to create a factual report based *exclusively* on the provided definitive source material, typically a meeting transcript.

**Task:** Generate a thorough and accurate report summarizing a specific official meeting (e.g., [MEETING_BODY]). The report should accurately reflect the discussions, decisions, and outcomes based *only* on the provided transcript from [MEETING_DATE].

**Input:**

1.  **Primary Source (Required):** The full, official transcript of the meeting:
    ```transcript
    [MEETING_TRANSCRIPT_TEXT]
    ```

2.  **Meeting Context (Required):**
    * Meeting Body: [MEETING_BODY]
    * Meeting Date: [MEETING_DATE]

3.  **Report Type (Required):** [REPORT_TYPE]
    * Specific Topic (if applicable): [SPECIFIC_TOPIC]

4.  **Supporting Documents (Optional):**
    ```supporting_docs
    [OPTIONAL_SUPPORTING_DOCS]
    ```

5.  **Style Guidelines (Optional):**
    ```style_guidelines
    [STYLE_GUIDELINES]
    ```

**Process & Instructions:**

1.  **Prioritize Transcript:** Base the entire report *solely* on the provided official transcript text. Do not incorporate information from external knowledge or preliminary summaries unless explicitly instructed and corroborated by the transcript.
2.  **Verify Information:** Meticulously extract and verify all details from the transcript: Facts (actions, motions, decisions, figures, item numbers), Votes (precise counts, abstentions), Speakers & Names (accurate attribution, use **Name** format, ignore obvious transcript spelling errors if correct spelling is known), Procedural Details (referrals, readings, etc.).
3.  **Handle Quotes:** Identify direct quotes. Include quotes **only if they are exactly verbatim** from the transcript. Use `<u>underlining</u>` format for verbatim quotes. Do *not* paraphrase and present it as a direct quote.
4.  **Identify Key Topics (for Comprehensive Reports):** Analyze the transcript to identify the most significant discussions/actions based on debate intensity, financial/policy/community impact.
5.  **Structure the Report:**
    * **Comprehensive:** Organize logically (thematically or chronologically). Detail key topics. Include sections for major items, public input, other actions, context.
    * **Topic-Specific:** Focus exclusively on the specified topic (`[SPECIFIC_TOPIC]`). Include all relevant discussion, actions, context, and outcomes related *only* to that item.
6.  **Drafting Style:** Maintain a neutral, objective, factual tone. Clearly attribute statements/arguments. Use item/order numbers for clarity. Summarize routine actions concisely.
7.  **Context & Notes:** Include relevant context (opening/closing, tributes). If ambiguities remain *after analyzing the transcript*, list them in a separate "
  ++ dquote ++ "Notes for Clarification"
  ++ dquote ++ " section. Do not speculate.
8.  **Review:** Ensure the final report is accurate, clear, complete (for the specified scope), internally consistent, and adheres to any provided Style Guidelines.

**Output:**

* Produce the report in Markdown format.
* Adhere strictly to the specified `[REPORT_TYPE]`.
* Use specified formatting for names (`**Name**`) and quotes (`<u>quote</u>`) consistently.
".

(** ** Tk widgets, message boxes and files *)

Inductive widget_state : Type := NORMAL | DISABLED.

(** A [ScrolledText] widget: its text (without the final newline Tk keeps)
    and its [state] option. *)
Record Text : Type := mkText {
  text_content : string;
  text_state : widget_state
}.

(** [w.config(state=st)]. *)
Definition text_config (st : widget_state) (w : Text) : Text :=
  {| text_content := text_content w; text_state := st |}.

(** [w.get("1.0", tk.END)]: the text and the final newline. *)
Definition text_get (w : Text) : string := text_content w ++ nl.

(** [w.delete("1.0", tk.END)]; a disabled widget ignores edits. *)
Definition text_delete_all (w : Text) : Text :=
  match text_state w with
  | NORMAL => {| text_content := EmptyString; text_state := NORMAL |}
  | DISABLED => w
  end.

(** [w.insert("1.0", s)]. *)
Definition text_insert_start (s : string) (w : Text) : Text :=
  match text_state w with
  | NORMAL => {| text_content := s ++ text_content w; text_state := NORMAL |}
  | DISABLED => w
  end.

(** [w.insert(tk.END, s)]. *)
Definition text_insert_end (s : string) (w : Text) : Text :=
  match text_state w with
  | NORMAL => {| text_content := text_content w ++ s; text_state := NORMAL |}
  | DISABLED => w
  end.

(** The calls to [messagebox], in the order they are made. *)
Inductive message : Type :=
| showinfo (title body : string)
| showwarning (title body : string)
| showerror (title body : string).

(** What [open(filepath, 'r', encoding='utf-8')] followed by [f.read()]
    gives: the decoded text, or the exception with its text. *)
Inductive read_result : Type :=
| ReadOk (content : string)
| ReadError (e : string).

Definition filesystem : Type := string -> read_result.

(** The module-level widgets. *)
Record App : Type := mkApp {
  transcript_text_area : Text;
  date_entry : string;
  body_entry : string;
  report_type_var : string;
  topic_entry : string;
  docs_text_area : Text;
  style_text_area : Text;
  output_text_area : Text
}.

Definition set_transcript_text_area (w : Text) (s : App) : App :=
  mkApp w (date_entry s) (body_entry s) (report_type_var s) (topic_entry s)
        (docs_text_area s) (style_text_area s) (output_text_area s).

Definition set_docs_text_area (w : Text) (s : App) : App :=
  mkApp (transcript_text_area s) (date_entry s) (body_entry s)
        (report_type_var s) (topic_entry s) w (style_text_area s)
        (output_text_area s).

Definition set_style_text_area (w : Text) (s : App) : App :=
  mkApp (transcript_text_area s) (date_entry s) (body_entry s)
        (report_type_var s) (topic_entry s) (docs_text_area s) w
        (output_text_area s).

Definition set_output_text_area (w : Text) (s : App) : App :=
  mkApp (transcript_text_area s) (date_entry s) (body_entry s)
        (report_type_var s) (topic_entry s) (docs_text_area s)
        (style_text_area s) w.

Definition set_topic_entry (t : string) (s : App) : App :=
  mkApp (transcript_text_area s) (date_entry s) (body_entry s)
        (report_type_var s) t (docs_text_area s) (style_text_area s)
        (output_text_area s).

(** ** Loading files *)

(** [_load_file_content(text_widget, title)]; [filepath] is what the file
    dialog returned, empty when the user cancelled. *)
Definition _load_file_content (fs : filesystem) (filepath : string)
    (text_widget : Text) : Text * list message :=
  if negb (truthy filepath) then (text_widget, [])
  else
    match fs filepath with
    | ReadOk content =>
        let w := text_config NORMAL text_widget in
        let w := text_delete_all w in
        let w := text_insert_start content w in
        (w, [showinfo "File Loaded"
               ("Successfully loaded content from:" ++ nl
                ++ basename filepath)])
    | ReadError e =>
        (text_widget,
         [showerror "Error Reading File"
            ("Failed to read file: " ++ filepath ++ nl ++ e)])
    end.

Definition load_transcript_file (fs : filesystem) (filepath : string)
    (s : App) : App * list message :=
  let (w, ms) := _load_file_content fs filepath (transcript_text_area s) in
  (set_transcript_text_area w s, ms).

Definition load_style_file (fs : filesystem) (filepath : string)
    (s : App) : App * list message :=
  let (w, ms) := _load_file_content fs filepath (style_text_area s) in
  (set_style_text_area w s, ms).

(** The separator written before a file's content. *)
Definition separator (filename : string) : string :=
  nl ++ nl ++ "--- Supporting Doc: " ++ filename ++ " ---" ++ nl ++ nl.

(** The loop of [load_and_append_docs_files] over the selected paths: the
    widget, the count of files loaded, and the warnings shown. *)
Fixpoint append_loop (fs : filesystem) (filepaths : list string)
    (w : Text) (files_loaded_count : nat) : Text * nat * list message :=
  match filepaths with
  | [] => (w, files_loaded_count, [])
  | filepath :: rest =>
      match fs filepath with
      | ReadOk content =>
          let filename := basename filepath in
          let w := text_insert_end (separator filename) w in
          let w := text_insert_end content w in
          append_loop fs rest w (files_loaded_count + 1)
      | ReadError e =>
          let '(w', n, ms) := append_loop fs rest w files_loaded_count in
          (w', n,
           showwarning "Error Reading File"
             ("Failed to read file: " ++ filepath ++ nl ++ e ++ nl
              ++ "Skipping this file.") :: ms)
      end
  end.

(** [load_and_append_docs_files()]; [filepaths] is what the file dialog
    returned, empty when the user cancelled. *)
Definition load_and_append_docs_files (fs : filesystem)
    (filepaths : list string) (s : App) : App * list message :=
  match filepaths with
  | [] => (s, [])
  | _ :: _ =>
      let w := text_config NORMAL (docs_text_area s) in
      let '(w, files_loaded_count, ms) := append_loop fs filepaths w 0 in
      (set_docs_text_area w s,
       (ms ++ if (0 <? files_loaded_count)%nat
              then [showinfo "Files Appended"
                      ("Successfully appended content from "
                       ++ str_of_nat files_loaded_count
                       ++ " file(s).")%string]
              else [])%list)
  end.

(** ** Generating the prompt *)

(** [generate_prompt()]. *)
Definition generate_prompt (s : App) : App * list message :=
  let transcript_text := strip (text_get (transcript_text_area s)) in
  let meeting_date := strip (date_entry s) in
  let meeting_body := strip (body_entry s) in
  let report_type := report_type_var s in
  let specific_topic :=
    if (report_type =? "Topic-Specific")%string
    then strip (topic_entry s) else "N/A" in
  let supporting_docs := strip (text_get (docs_text_area s)) in
  let style_guidelines := strip (text_get (style_text_area s)) in
  if negb (truthy transcript_text) then
    (s, [showerror "Input Error" "Meeting Transcript text cannot be empty."])
  else if negb (truthy meeting_date) then
    (s, [showerror "Input Error" "Meeting Date cannot be empty."])
  else if negb (truthy meeting_body) then
    (s, [showerror "Input Error" "Meeting Body cannot be empty."])
  else if (report_type =? "Topic-Specific")%string
          && negb (truthy specific_topic) then
    (s, [showerror "Input Error"
           "Specific Topic cannot be empty when Report Type is 'Topic-Specific'."])
  else
    let formatted_prompt := PROMPT_TEMPLATE in
    let formatted_prompt :=
      replace "[MEETING_TRANSCRIPT_TEXT]" transcript_text formatted_prompt in
    let formatted_prompt :=
      replace "[MEETING_DATE]" meeting_date formatted_prompt in
    let formatted_prompt :=
      replace "[MEETING_BODY]" meeting_body formatted_prompt in
    let formatted_prompt :=
      replace "[REPORT_TYPE]" report_type formatted_prompt in
    let formatted_prompt :=
      replace "[SPECIFIC_TOPIC]" specific_topic formatted_prompt in
    let formatted_prompt :=
      replace "[OPTIONAL_SUPPORTING_DOCS]"
        (if truthy supporting_docs then supporting_docs else "None provided.")
        formatted_prompt in
    let formatted_prompt :=
      replace "[STYLE_GUIDELINES]"
        (if truthy style_guidelines then style_guidelines else "None provided.")
        formatted_prompt in
    let out := text_config NORMAL (output_text_area s) in
    let out := text_delete_all out in
    let out := text_insert_end formatted_prompt out in
    let out := text_config DISABLED out in
    (set_output_text_area out s, []).

(** ** The renderer on its own

    [generate_prompt] gathers the field values, validates them and
    substitutes them into the template.  The three parts are named here;
    [generate_prompt_eq] below shows that together they are
    [generate_prompt]. *)

Record fields : Type := mkFields {
  transcript_text : string;
  meeting_date : string;
  meeting_body : string;
  report_type : string;
  specific_topic : string;
  supporting_docs : string;
  style_guidelines : string
}.

(** The values read from the widgets, with the fall-backs of the
    conditional and the optional fields. *)
Definition gather (s : App) : fields :=
  let docs := strip (text_get (docs_text_area s)) in
  let style := strip (text_get (style_text_area s)) in
  {| transcript_text := strip (text_get (transcript_text_area s));
     meeting_date := strip (date_entry s);
     meeting_body := strip (body_entry s);
     report_type := report_type_var s;
     specific_topic :=
       if (report_type_var s =? "Topic-Specific")%string
       then strip (topic_entry s) else "N/A";
     supporting_docs := if truthy docs then docs else "None provided.";
     style_guidelines := if truthy style then style else "None provided." |}.

(** The basic validation: the text of the error shown, if any. *)
Definition validate (f : fields) : option string :=
  if negb (truthy (transcript_text f)) then
    Some "Meeting Transcript text cannot be empty."
  else if negb (truthy (meeting_date f)) then
    Some "Meeting Date cannot be empty."
  else if negb (truthy (meeting_body f)) then
    Some "Meeting Body cannot be empty."
  else if (report_type f =? "Topic-Specific")%string
          && negb (truthy (specific_topic f)) then
    Some "Specific Topic cannot be empty when Report Type is 'Topic-Specific'."
  else None.

(** The seven replacements, on any template. *)
Definition render (template : string) (f : fields) : string :=
  let formatted_prompt := template in
  let formatted_prompt :=
    replace "[MEETING_TRANSCRIPT_TEXT]" (transcript_text f) formatted_prompt in
  let formatted_prompt :=
    replace "[MEETING_DATE]" (meeting_date f) formatted_prompt in
  let formatted_prompt :=
    replace "[MEETING_BODY]" (meeting_body f) formatted_prompt in
  let formatted_prompt :=
    replace "[REPORT_TYPE]" (report_type f) formatted_prompt in
  let formatted_prompt :=
    replace "[SPECIFIC_TOPIC]" (specific_topic f) formatted_prompt in
  let formatted_prompt :=
    replace "[OPTIONAL_SUPPORTING_DOCS]" (supporting_docs f)
      formatted_prompt in
  let formatted_prompt :=
    replace "[STYLE_GUIDELINES]" (style_guidelines f) formatted_prompt in
  formatted_prompt.

(** The document shown after [generate_prompt]. *)
Definition displayed (s : App) : string :=
  text_content (output_text_area (fst (generate_prompt s))).

(** ** Placeholders *)

Inductive placeholder : Type :=
| MEETING_TRANSCRIPT_TEXT
| MEETING_DATE
| MEETING_BODY
| REPORT_TYPE
| SPECIFIC_TOPIC
| OPTIONAL_SUPPORTING_DOCS
| STYLE_GUIDELINES.

Definition token (p : placeholder) : string :=
  match p with
  | MEETING_TRANSCRIPT_TEXT => "[MEETING_TRANSCRIPT_TEXT]"
  | MEETING_DATE => "[MEETING_DATE]"
  | MEETING_BODY => "[MEETING_BODY]"
  | REPORT_TYPE => "[REPORT_TYPE]"
  | SPECIFIC_TOPIC => "[SPECIFIC_TOPIC]"
  | OPTIONAL_SUPPORTING_DOCS => "[OPTIONAL_SUPPORTING_DOCS]"
  | STYLE_GUIDELINES => "[STYLE_GUIDELINES]"
  end.

Definition value (f : fields) (p : placeholder) : string :=
  match p with
  | MEETING_TRANSCRIPT_TEXT => transcript_text f
  | MEETING_DATE => meeting_date f
  | MEETING_BODY => meeting_body f
  | REPORT_TYPE => report_type f
  | SPECIFIC_TOPIC => specific_topic f
  | OPTIONAL_SUPPORTING_DOCS => supporting_docs f
  | STYLE_GUIDELINES => style_guidelines f
  end.

(** The order in which [generate_prompt] replaces the placeholders. *)
Definition substitution_order : list placeholder :=
  [MEETING_TRANSCRIPT_TEXT; MEETING_DATE; MEETING_BODY; REPORT_TYPE;
   SPECIFIC_TOPIC; OPTIONAL_SUPPORTING_DOCS; STYLE_GUIDELINES].

Definition placeholder_eqb (p q : placeholder) : bool :=
  (token p =? token q)%string.

(** One replacement step. *)
Definition substitute (f : fields) (doc : string) (p : placeholder) : string :=
  replace (token p) (value f p) doc.

Fixpoint after (p : placeholder) (l : list placeholder) : list placeholder :=
  match l with
  | [] => []
  | q :: l' => if placeholder_eqb p q then l' else after p l'
  end.

(** The placeholders replaced after [p]. *)
Definition later_steps (p : placeholder) : list placeholder :=
  after p substitution_order.

Fixpoint before (q : placeholder) (l : list placeholder) : list placeholder :=
  match l with
  | [] => []
  | r :: l' => if placeholder_eqb q r then [] else r :: before q l'
  end.

(** The placeholders replaced after [p] and before [q]. *)
Definition between (p q : placeholder) : list placeholder :=
  before q (later_steps p).

(** The value of [p] once the later steps have gone over it. *)
Definition substituted (f : fields) (p : placeholder) : string :=
  fold_left (substitute f) (later_steps p) (value f p).

(** ** Templates as literal text around holes *)

(** [s0 x1 s1 x2 s2 ...]: literal text and what stands in the holes. *)
Fixpoint weave (s0 : string) (hs : list (string * string)) : string :=
  match hs with
  | [] => s0
  | (x, s) :: hs' => s0 ++ x ++ weave s hs'
  end.

(** A template with placeholders in the holes, filled by [h]. *)
Definition fill (h : placeholder -> string) (s0 : string)
    (ps : list (placeholder * string)) : string :=
  weave s0 (map (fun ps => (h (fst ps), snd ps)) ps).

(** [seg] is not empty, starts and ends with a character that is not in
    [old], and [old] does not occur in it. *)
Definition delimits (old seg : string) : bool :=
  match head_char seg, last_char seg with
  | Some c, Some d =>
      negb (char_in c old) && negb (char_in d old) && negb (contains old seg)
  | _, _ => false
  end.

(** Every piece of literal text around the holes delimits [old]. *)
Definition all_delimit (old : string) (s0 : string)
    (hs : list (string * string)) : bool :=
  delimits old s0 && forallb (fun xs => delimits old (snd xs)) hs.

(** [g] applied to what stands in the holes. *)
Definition map_holes (g : string -> string) (hs : list (string * string))
  : list (string * string) :=
  map (fun xs => (g (fst xs), snd xs)) hs.

(** Every piece of literal text delimits every token. *)
Definition well_delimited (s0 : string) (ps : list (placeholder * string))
  : bool :=
  forallb (fun p => delimits (token p) s0
                    && forallb (fun ps => delimits (token p) (snd ps)) ps)
          substitution_order.

(** No field value contains a placeholder token. *)
Definition token_free (f : fields) : bool :=
  forallb (fun p => forallb (fun q => negb (contains (token q) (value f p)))
                            substitution_order)
          substitution_order.

(** The literal text of the template between its placeholders. *)

Definition seg0 : string :=
  "
## Prompt for Generating Official Meeting Reports

**Role:** You are an AI assistant specialized in processing official meeting records and generating accurate, objective summaries. Your primary goal is to create a factual report based *exclusively* on the provided definitive source material, typically a meeting transcript.

**Task:** Generate a thorough and accurate report summarizing a specific official meeting (e.g., ".

Definition seg1 : string :=
  "). The report should accurately reflect the discussions, decisions, and outcomes based *only* on the provided transcript from ".

Definition seg2 : string :=
  ".

**Input:**

1.  **Primary Source (Required):** The full, official transcript of the meeting:
    ```transcript
    ".

Definition seg3 : string :=
  "
    ```

2.  **Meeting Context (Required):**
    * Meeting Body: ".

Definition seg4 : string :=
  "
    * Meeting Date: ".

Definition seg5 : string :=
  "

3.  **Report Type (Required):** ".

Definition seg6 : string :=
  "
    * Specific Topic (if applicable): ".

Definition seg7 : string :=
  "

4.  **Supporting Documents (Optional):**
    ```supporting_docs
    ".

Definition seg8 : string :=
  "
    ```

5.  **Style Guidelines (Optional):**
    ```style_guidelines
    ".

Definition seg9 : string :=
  "
    ```

**Process & Instructions:**

1.  **Prioritize Transcript:** Base the entire report *solely* on the provided official transcript text. Do not incorporate information from external knowledge or preliminary summaries unless explicitly instructed and corroborated by the transcript.
2.  **Verify Information:** Meticulously extract and verify all details from the transcript: Facts (actions, motions, decisions, figures, item numbers), Votes (precise counts, abstentions), Speakers & Names (accurate attribution, use **Name** format, ignore obvious transcript spelling errors if correct spelling is known), Procedural Details (referrals, readings, etc.).
3.  **Handle Quotes:** Identify direct quotes. Include quotes **only if they are exactly verbatim** from the transcript. Use `<u>underlining</u>` format for verbatim quotes. Do *not* paraphrase and present it as a direct quote.
4.  **Identify Key Topics (for Comprehensive Reports):** Analyze the transcript to identify the most significant discussions/actions based on debate intensity, financial/policy/community impact.
5.  **Structure the Report:**
    * **Comprehensive:** Organize logically (thematically or chronologically). Detail key topics. Include sections for major items, public input, other actions, context.
    * **Topic-Specific:** Focus exclusively on the specified topic (`".

Definition seg10 : string :=
  "`). Include all relevant discussion, actions, context, and outcomes related *only* to that item.
6.  **Drafting Style:** Maintain a neutral, objective, factual tone. Clearly attribute statements/arguments. Use item/order numbers for clarity. Summarize routine actions concisely.
7.  **Context & Notes:** Include relevant context (opening/closing, tributes). If ambiguities remain *after analyzing the transcript*, list them in a separate "
  ++ dquote ++ "Notes for Clarification"
  ++ dquote ++ " section. Do not speculate.
8.  **Review:** Ensure the final report is accurate, clear, complete (for the specified scope), internally consistent, and adheres to any provided Style Guidelines.

**Output:**

* Produce the report in Markdown format.
* Adhere strictly to the specified `".

Definition seg11 : string :=
  "`.
* Use specified formatting for names (`**Name**`) and quotes (`<u>quote</u>`) consistently.
".

(** The placeholders of the template, each with the text that follows. *)
Definition prompt_holes : list (placeholder * string) :=
  [(MEETING_BODY, seg1); (MEETING_DATE, seg2);
   (MEETING_TRANSCRIPT_TEXT, seg3); (MEETING_BODY, seg4);
   (MEETING_DATE, seg5); (REPORT_TYPE, seg6); (SPECIFIC_TOPIC, seg7);
   (OPTIONAL_SUPPORTING_DOCS, seg8); (STYLE_GUIDELINES, seg9);
   (SPECIFIC_TOPIC, seg10); (REPORT_TYPE, seg11)].

(** The template with [h p] in the place of each placeholder [p]. *)
Definition layout (h : placeholder -> string) : string :=
  fill h seg0 prompt_holes.

(** ** What a batch of files amounts to *)

(** The text of a batch: before each file's content, its separator. *)
Fixpoint assemble (files : list (string * string)) : string :=
  match files with
  | [] => EmptyString
  | (filepath, content) :: rest =>
      separator (basename filepath) ++ content ++ assemble rest
  end.

(** The selected files that can be read, in selection order, with their
    content. *)
Fixpoint readable (fs : filesystem) (filepaths : list string)
  : list (string * string) :=
  match filepaths with
  | [] => []
  | filepath :: rest =>
      match fs filepath with
      | ReadOk content => (filepath, content) :: readable fs rest
      | ReadError _ => readable fs rest
      end
  end.

(** The warning shown for a file that cannot be read. *)
Definition skip_warning (filepath e : string) : message :=
  showwarning "Error Reading File"
    ("Failed to read file: " ++ filepath ++ nl ++ e ++ nl
     ++ "Skipping this file.").

(** The warnings of a batch: one for each file that cannot be read, in
    selection order. *)
Fixpoint warnings (fs : filesystem) (filepaths : list string) : list message :=
  match filepaths with
  | [] => []
  | filepath :: rest =>
      match fs filepath with
      | ReadOk _ => warnings fs rest
      | ReadError e => skip_warning filepath e :: warnings fs rest
      end
  end.

(** The summary shown after a batch. *)
Definition summary (n : nat) : message :=
  showinfo "Files Appended"
    ("Successfully appended content from " ++ str_of_nat n ++ " file(s).").

Definition is_showinfo (m : message) : bool :=
  match m with
  | showinfo _ _ => true
  | _ => false
  end.

(** ** Sample inputs *)

Definition blank : Text := mkText EmptyString NORMAL.

(** A form filled for a topic-specific report, the topic left empty, with
    an earlier prompt on display. *)
Definition council_no_topic : App :=
  mkApp (mkText "..." NORMAL) "2024-05-01" "City Council" "Topic-Specific"
        EmptyString blank blank (mkText "earlier prompt" DISABLED).

(** A comprehensive report, nothing optional given, some text left in the
    topic entry. *)
Definition council : App :=
  mkApp (mkText "Call to order." NORMAL) " 2024-05-01 " "City Council"
        "Comprehensive" "Zoning" blank blank blank.

(** The same form after an earlier prompt was displayed. *)
Definition council_again : App :=
  set_output_text_area (mkText "earlier prompt" DISABLED) council.

(** A transcript that quotes the date placeholder. *)
Definition council_quoting_date : App :=
  mkApp (mkText "See [MEETING_DATE] minutes" NORMAL) "2024-05-01"
        "City Council" "Comprehensive" EmptyString blank blank blank.

(** Style guidelines that quote a placeholder replaced earlier. *)
Definition council_quoting_in_style : App :=
  mkApp (mkText "Call to order." NORMAL) "2024-05-01" "City Council"
        "Comprehensive" EmptyString blank
        (mkText "Write dates as [MEETING_DATE]" NORMAL) blank.

(** Field values in which the date quotes the transcript placeholder,
    which is replaced before the date. *)
Definition date_quoting_transcript : fields :=
  mkFields "Call to order." "[MEETING_TRANSCRIPT_TEXT]" "City Council"
           "Comprehensive" "N/A" "None provided." "None provided.".

(** Field values without any token. *)
Definition plain_fields : fields :=
  mkFields "Call to order." "2024-05-01" "City Council" "Comprehensive"
           "N/A" "None provided." "None provided.".

(** Two files that can be read and nothing else. *)
Definition two_files : filesystem :=
  fun filepath =>
    if (filepath =? "/docs/A.txt")%string then ReadOk "X"
    else if (filepath =? "/docs/B.md")%string then ReadOk "Y"
    else ReadError "[Errno 2] No such file or directory".

(** ** The topic entry and the events of the form

    The entry for the specific topic has a [state] of its own, which
    [update_topic_entry_state] sets.  The form below adds it to the
    widgets. *)

Record Form : Type := mkForm {
  widgets : App;
  topic_entry_state : widget_state
}.

(** [topic_entry.delete(0, tk.END)]; a disabled entry ignores edits. *)
Definition entry_delete_all (g : Form) : Form :=
  match topic_entry_state g with
  | NORMAL => mkForm (set_topic_entry EmptyString (widgets g)) NORMAL
  | DISABLED => g
  end.

(** [update_topic_entry_state], the callback of a write to the report type
    variable. *)
Definition update_topic_entry_state (g : Form) : Form :=
  if (report_type_var (widgets g) =? "Topic-Specific")%string
  then mkForm (widgets g) NORMAL
  else
    let g := entry_delete_all g in
    mkForm (widgets g) DISABLED.

Definition set_date_entry (d : string) (s : App) : App :=
  mkApp (transcript_text_area s) d (body_entry s) (report_type_var s)
        (topic_entry s) (docs_text_area s) (style_text_area s)
        (output_text_area s).

Definition set_body_entry (b : string) (s : App) : App :=
  mkApp (transcript_text_area s) (date_entry s) b (report_type_var s)
        (topic_entry s) (docs_text_area s) (style_text_area s)
        (output_text_area s).

Definition set_report_type_var (v : string) (s : App) : App :=
  mkApp (transcript_text_area s) (date_entry s) (body_entry s) v
        (topic_entry s) (docs_text_area s) (style_text_area s)
        (output_text_area s).

(** The form as the set-up code leaves it: every widget empty, the report
    type Comprehensive, the topic entry and the output area disabled, and
    [update_topic_entry_state()] called once. *)
Definition startup : Form :=
  update_topic_entry_state
    (mkForm (mkApp blank EmptyString EmptyString "Comprehensive" EmptyString
                   blank blank (mkText EmptyString DISABLED))
            DISABLED).

(** The two radio buttons. *)
Inductive radio : Type := comprehensive_radio | topic_specific_radio.

Definition radio_value (r : radio) : string :=
  match r with
  | comprehensive_radio => "Comprehensive"
  | topic_specific_radio => "Topic-Specific"
  end.

(** The user replaces the text of a text area; a disabled one cannot be
    edited. *)
Definition text_user_edit (text : string) (w : Text) : Text :=
  match text_state w with
  | NORMAL => mkText text NORMAL
  | DISABLED => w
  end.

(** What the user can do with the form: edit a widget, choose a report
    type, press a button.  The file dialogs' answers come with the
    buttons. *)
Inductive event : Type :=
| EditTranscript (text : string)
| EditDate (text : string)
| EditBody (text : string)
| EditTopic (text : string)
| EditDocs (text : string)
| EditStyle (text : string)
| EditOutput (text : string)
| SelectReportType (r : radio)
| PressLoadTranscript (filepath : string)
| PressLoadDocs (filepaths : list string)
| PressLoadStyle (filepath : string)
| PressGenerate.

Definition on_widgets (g : Form) (r : App * list message)
  : Form * list message :=
  (mkForm (fst r) (topic_entry_state g), snd r).

(** The wiring of the set-up code: each button runs its command, a write
    to the report type variable runs [update_topic_entry_state], an edit
    changes the widget if it is enabled. *)
Definition handle (fs : filesystem) (e : event) (g : Form)
  : Form * list message :=
  let s := widgets g in
  match e with
  | EditTranscript text =>
      on_widgets g
        (set_transcript_text_area
           (text_user_edit text (transcript_text_area s)) s, [])
  | EditDate text => on_widgets g (set_date_entry text s, [])
  | EditBody text => on_widgets g (set_body_entry text s, [])
  | EditTopic text =>
      match topic_entry_state g with
      | NORMAL => on_widgets g (set_topic_entry text s, [])
      | DISABLED => (g, [])
      end
  | EditDocs text =>
      on_widgets g
        (set_docs_text_area (text_user_edit text (docs_text_area s)) s, [])
  | EditStyle text =>
      on_widgets g
        (set_style_text_area (text_user_edit text (style_text_area s)) s, [])
  | EditOutput text =>
      on_widgets g
        (set_output_text_area (text_user_edit text (output_text_area s)) s,
         [])
  | SelectReportType r =>
      (update_topic_entry_state
         (mkForm (set_report_type_var (radio_value r) s)
                 (topic_entry_state g)), [])
  | PressLoadTranscript filepath =>
      on_widgets g (load_transcript_file fs filepath s)
  | PressLoadDocs filepaths =>
      on_widgets g (load_and_append_docs_files fs filepaths s)
  | PressLoadStyle filepath => on_widgets g (load_style_file fs filepath s)
  | PressGenerate => on_widgets g (generate_prompt s)
  end.

(** The forms the user can bring about. *)
Inductive reachable : Form -> Prop :=
| reachable_startup : reachable startup
| reachable_handle (fs : filesystem) (e : event) (g : Form) :
    reachable g -> reachable (fst (handle fs e g)).

(** ** Whitespace *)

(** Every character is whitespace. *)
Fixpoint all_space (s : string) : bool :=
  match s with
  | EmptyString => true
  | String c s' => isspace c && all_space s'
  end.

(** [y] is [x] with whitespace put before and after. *)
Definition padded (x y : string) : Prop :=
  exists l r, all_space l = true /\ all_space r = true /\ y = l ++ x ++ r.

(** Two forms whose inputs differ by surrounding whitespace only. *)
Definition padded_inputs (s s' : App) : Prop :=
  padded (text_content (transcript_text_area s))
         (text_content (transcript_text_area s'))
  /\ padded (date_entry s) (date_entry s')
  /\ padded (body_entry s) (body_entry s')
  /\ report_type_var s' = report_type_var s
  /\ padded (topic_entry s) (topic_entry s')
  /\ padded (text_content (docs_text_area s))
            (text_content (docs_text_area s'))
  /\ padded (text_content (style_text_area s))
            (text_content (style_text_area s')).

(** A topic-specific report with everything filled in. *)
Definition council_zoning : App :=
  mkApp (mkText "Call to order." NORMAL) "2024-05-01" "City Council"
        "Topic-Specific" "Zoning" blank (mkText "Be brief." NORMAL) blank.

(** The same form with whitespace around the inputs. *)
Definition council_zoning_padded : App :=
  mkApp (mkText (nl ++ "Call to order." ++ nl ++ nl) DISABLED)
        " 2024-05-01" "City Council " "Topic-Specific" " Zoning "
        (mkText " " NORMAL) (mkText ("Be brief." ++ nl) NORMAL)
        (mkText "earlier prompt" DISABLED).

(** A form whose transcript holds spaces only and whose date is empty. *)
Definition spaces_only : App :=
  mkApp (mkText "   " NORMAL) EmptyString "City Council" "Topic-Specific"
        EmptyString blank blank (mkText "earlier prompt" DISABLED).

(** The seven steps in another order, one of them twice. *)
Definition shuffled_order : list placeholder :=
  [STYLE_GUIDELINES; MEETING_BODY; OPTIONAL_SUPPORTING_DOCS; MEETING_DATE;
   SPECIFIC_TOPIC; MEETING_BODY; REPORT_TYPE; MEETING_TRANSCRIPT_TEXT].

(** A file system in which nothing can be read. *)
Definition no_files : filesystem :=
  fun _ => ReadError "[Errno 13] Permission denied".

(** The form after the user chose Topic-Specific and typed a topic. *)
Definition typed_topic : Form :=
  fst (handle no_files (EditTopic "Zoning")
         (fst (handle no_files (SelectReportType topic_specific_radio)
                 startup))).

(** * Facts about the string operations *)

Section StringFacts.

Lemma append_nil_r (s : string) : s ++ EmptyString = s.
Proof. induction s as [|c s IH]; simpl; [reflexivity | now rewrite IH]. Qed.

Lemma append_assoc (a b c : string) : (a ++ b) ++ c = a ++ (b ++ c).
Proof. induction a as [|x a IH]; simpl; [reflexivity | now rewrite IH]. Qed.

Lemma length_append (a b : string) :
  length (a ++ b) = length a + length b.
Proof. induction a as [|x a IH]; simpl; [reflexivity | now rewrite IH]. Qed.

Lemma char_in_append (c : ascii) (a b : string) :
  char_in c (a ++ b) = char_in c a || char_in c b.
Proof.
  induction a as [|x a IH]; simpl; [reflexivity |].
  now rewrite IH, orb_assoc.
Qed.

Lemma last_char_split (s : string) (c : ascii) :
  last_char s = Some c -> exists s', s = s' ++ String c EmptyString.
Proof.
  revert c; induction s as [|x s IH]; intros c H; simpl in H.
  - discriminate.
  - destruct (last_char s) as [d|] eqn:E.
    + destruct (IH d eq_refl) as [s' ->].
      inversion H; subst. now exists (String x s').
    + destruct s; [| simpl in E; destruct (last_char s); discriminate].
      inversion H; subst. now exists EmptyString.
Qed.

Lemma head_char_split (s : string) (c : ascii) :
  head_char s = Some c -> exists s', s = String c s'.
Proof. destruct s; simpl; intros H; inversion H; subst; eauto. Qed.

(** *** [startswith] *)

Lemma startswith_refl (s : string) : startswith s s = true.
Proof.
  induction s as [|c s IH]; simpl; [reflexivity |].
  now rewrite Ascii.eqb_refl, IH.
Qed.

Lemma startswith_append (pre s : string) : startswith pre (pre ++ s) = true.
Proof.
  induction pre as [|c pre IH]; simpl; [reflexivity |].
  now rewrite Ascii.eqb_refl, IH.
Qed.

Lemma startswith_length (pre s : string) :
  startswith pre s = true -> length pre <= length s.
Proof.
  revert s; induction pre as [|c pre IH]; intros [|d s] H; simpl in *;
    try lia; try discriminate.
  apply andb_true_iff in H as [_ H]. apply IH in H. lia.
Qed.

(** A character that is not in [old] ends every match: whether [old]
    starts [a ++ c :: b] is decided within [a]. *)
Lemma startswith_sep (old a b : string) (c : ascii) :
  char_in c old = false ->
  startswith old (a ++ String c b) = startswith old a.
Proof.
  revert a; induction old as [|x old IH]; intros a H; [reflexivity |].
  simpl in H. apply orb_false_iff in H as [Hx Hold].
  destruct a as [|y a]; simpl.
  - rewrite Ascii.eqb_sym, Hx. reflexivity.
  - now rewrite IH.
Qed.

Lemma startswith_head_absent (old s : string) (c : ascii) :
  head_char old = Some c -> char_in c s = false -> startswith old s = false.
Proof.
  destruct old as [|x old]; simpl; intros H; inversion H; subst.
  destruct s as [|d s]; simpl; [reflexivity |].
  intros Hc. apply orb_false_iff in Hc as [-> _]. reflexivity.
Qed.

Lemma startswith_head_differs (old s : string) (c y : ascii) :
  head_char old = Some c -> Ascii.eqb c y = false ->
  startswith old (String y s) = false.
Proof.
  destruct old as [|x old]; simpl; intros H; inversion H; subst.
  now intros ->.
Qed.

(** *** [contains] *)

Lemma contains_nonempty_nil (old : string) :
  old <> EmptyString -> contains old EmptyString = false.
Proof. destruct old; [congruence | reflexivity]. Qed.

Lemma contains_sep (old a b : string) (c : ascii) :
  old <> EmptyString -> char_in c old = false ->
  contains old (a ++ String c b) = contains old a || contains old b.
Proof.
  intros Hne Hc. induction a as [|y a IH].
  - change (EmptyString ++ String c b) with (String c b).
    rewrite (contains_nonempty_nil old Hne). simpl contains at 1.
    change (String c b) with (EmptyString ++ String c b).
    rewrite startswith_sep by assumption.
    destruct old; [congruence | reflexivity].
  - change (String y a ++ String c b) with (String y (a ++ String c b)).
    simpl contains.
    change (String y (a ++ String c b)) with (String y a ++ String c b).
    rewrite startswith_sep by assumption.
    rewrite IH. now rewrite orb_assoc.
Qed.

Lemma contains_head_absent (old s : string) (c : ascii) :
  head_char old = Some c -> char_in c s = false -> contains old s = false.
Proof.
  intros Hh. induction s as [|d s IH]; intros Hc.
  - destruct old; [discriminate | reflexivity].
  - simpl. rewrite (startswith_head_absent old (String d s) c Hh Hc).
    simpl in Hc. apply orb_false_iff in Hc as [_ Hc]. now apply IH.
Qed.

End StringFacts.

(** * Facts about [replace] *)

Section ReplaceFacts.

Variables old new : string.
Hypothesis old_nonempty : old <> EmptyString.

Lemma replace_unfold (s : string) : replace old new s = replace_from old new 0 s.
Proof. unfold replace. destruct old; [congruence | reflexivity]. Qed.

Lemma replace_from_skip (a b : string) :
  replace_from old new (length a) (a ++ b) = replace_from old new 0 b.
Proof.
  induction a as [|x a IH]; simpl; [| exact IH].
  destruct b; reflexivity.
Qed.

Lemma replace_from_nil (k : nat) : replace_from old new k EmptyString = EmptyString.
Proof. reflexivity. Qed.

(** Where no match that starts earlier reaches into [t], the scan of the
    text before [t] and the scan of [t] do not see each other. *)
Lemma replace_from_cut (t : string) :
  (forall (y : ascii) (x : string),
      startswith old (String y x ++ t) = startswith old (String y x)) ->
  forall (a : string) (skip : nat),
    skip <= length a ->
    replace_from old new skip (a ++ t)
    = replace_from old new skip a ++ replace_from old new 0 t.
Proof.
  intros Hcut. induction a as [|y a IH]; intros skip Hskip.
  - simpl in Hskip. assert (skip = 0) as -> by lia. reflexivity.
  - change (String y a ++ t) with (String y (a ++ t)).
    destruct skip as [|k].
    + cbn [replace_from].
      change (String y (a ++ t)) with (String y a ++ t).
      rewrite Hcut.
      destruct (startswith old (String y a)) eqn:E.
      * apply startswith_length in E. simpl in E.
        rewrite IH by lia. now rewrite append_assoc.
      * rewrite IH by lia. reflexivity.
    + cbn [replace_from]. simpl in Hskip. apply IH. lia.
Qed.

(** The scan across a character that is not in [old]: no match covers
    it. *)
Lemma replace_from_sep (c : ascii) (b : string) :
  char_in c old = false ->
  forall (a : string) (skip : nat),
    skip <= length a ->
    replace_from old new skip (a ++ String c b)
    = replace_from old new skip a ++ String c (replace_from old new 0 b).
Proof.
  intros Hc a skip Hskip.
  rewrite replace_from_cut;
    [| intros y x; now apply startswith_sep | assumption].
  f_equal. cbn [replace_from].
  change (String c b) with (EmptyString ++ String c b).
  rewrite startswith_sep by assumption.
  destruct old; [congruence | reflexivity].
Qed.

Lemma replace_sep (a b : string) (c : ascii) :
  char_in c old = false ->
  replace old new (a ++ String c b)
  = replace old new a ++ String c (replace old new b).
Proof.
  intros Hc. rewrite !replace_unfold. apply replace_from_sep; [assumption | lia].
Qed.

(** [old] does not occur: nothing is replaced. *)
Lemma replace_absent (s : string) :
  contains old s = false -> replace old new s = s.
Proof.
  rewrite replace_unfold.
  induction s as [|c s IH]; intros H; [reflexivity |].
  simpl in H. apply orb_false_iff in H as [H1 H2].
  cbn [replace_from]. rewrite H1, IH by assumption. reflexivity.
Qed.

(** The token itself becomes the value. *)
Lemma replace_from_match (c : ascii) (o b : string) :
  old = String c o ->
  replace_from old new 0 (String c o ++ b) = new ++ replace_from old new 0 b.
Proof.
  intros E. change (String c o ++ b) with (String c (o ++ b)).
  cbn [replace_from].
  replace (startswith old (String c (o ++ b))) with true
    by (rewrite E; symmetry; apply (startswith_append (String c o))).
  replace (length old - 1) with (length o) by (rewrite E; simpl; lia).
  now rewrite replace_from_skip.
Qed.

Lemma replace_self : replace old new old = new.
Proof.
  rewrite replace_unfold.
  assert (exists c o, old = String c o) as (c & o & E)
    by (destruct old; [congruence | eauto]).
  transitivity (replace_from old new 0 (String c o ++ EmptyString)).
  - now rewrite append_nil_r, <- E.
  - rewrite (replace_from_match c o EmptyString E). apply append_nil_r.
Qed.

(** Text that ends with a character not in [old] can be cut off. *)
Lemma replace_append_l (a b : string) (c : ascii) :
  last_char a = Some c -> char_in c old = false ->
  replace old new (a ++ b) = replace old new a ++ replace old new b.
Proof.
  intros Hl Hc. destruct (last_char_split a c Hl) as [a' ->].
  rewrite append_assoc. change (String c EmptyString ++ b) with (String c b).
  rewrite !replace_sep by assumption.
  rewrite append_assoc. f_equal.
  rewrite (replace_unfold EmptyString). reflexivity.
Qed.

(** Text that starts with a character not in [old] can be cut off. *)
Lemma replace_append_r (a b : string) (c : ascii) :
  head_char b = Some c -> char_in c old = false ->
  replace old new (a ++ b) = replace old new a ++ replace old new b.
Proof.
  intros Hh Hc. destruct (head_char_split b c Hh) as [b' ->].
  rewrite replace_sep by assumption. f_equal.
  change (String c b') with (EmptyString ++ String c b').
  rewrite replace_sep by assumption.
  rewrite (replace_unfold EmptyString). reflexivity.
Qed.

(** When the first character of [old] is not repeated in it, no match
    overlaps an occurrence of [old]: every occurrence is replaced. *)
Lemma replace_occurrence (a b : string) (c : ascii) (o : string) :
  old = String c o -> char_in c o = false ->
  replace old new (a ++ old ++ b)
  = replace old new a ++ new ++ replace old new b.
Proof.
  intros E Hc. rewrite !replace_unfold.
  rewrite (replace_from_cut (old ++ b)).
  - f_equal. rewrite E at 2. apply (replace_from_match c o b E).
  - intros y x. rewrite E. cbn [append startswith].
    now rewrite startswith_sep.
  - lia.
Qed.

(** Text that starts as [old] does, with a character not repeated in
    [old], but is no match, can be cut off. *)
Lemma replace_append_head (a t : string) (c : ascii) (o : string) :
  old = String c o -> char_in c o = false ->
  replace old new (a ++ String c t)
  = replace old new a ++ replace old new (String c t).
Proof.
  intros E Hc. rewrite !replace_unfold.
  apply replace_from_cut; [| lia].
  intros y x. rewrite E. cbn [append startswith].
  now rewrite startswith_sep.
Qed.

End ReplaceFacts.

Section ContainsFacts.

Variable old : string.
Hypothesis old_nonempty : old <> EmptyString.

Lemma contains_append_l (a b : string) (c : ascii) :
  last_char a = Some c -> char_in c old = false ->
  contains old (a ++ b) = contains old a || contains old b.
Proof.
  intros Hl Hc. destruct (last_char_split a c Hl) as [a' ->].
  rewrite append_assoc. change (String c EmptyString ++ b) with (String c b).
  rewrite !contains_sep by assumption.
  rewrite (contains_nonempty_nil old old_nonempty).
  now rewrite orb_false_r.
Qed.

Lemma contains_append_r (a b : string) (c : ascii) :
  head_char b = Some c -> char_in c old = false ->
  contains old (a ++ b) = contains old a || contains old b.
Proof.
  intros Hh Hc. destruct (head_char_split b c Hh) as [b' ->].
  rewrite contains_sep by assumption. f_equal.
  change (String c b') with (EmptyString ++ String c b').
  rewrite contains_sep by assumption.
  now rewrite (contains_nonempty_nil old old_nonempty).
Qed.

End ContainsFacts.

(** * Replacement in a template of literal text and holes *)

Lemma delimits_inv (old seg : string) :
  delimits old seg = true ->
  exists c d, head_char seg = Some c /\ last_char seg = Some d
              /\ char_in c old = false /\ char_in d old = false
              /\ contains old seg = false.
Proof.
  unfold delimits. destruct (head_char seg) as [c|]; [| discriminate].
  destruct (last_char seg) as [d|]; [| discriminate].
  intros H. apply andb_true_iff in H as [H H3].
  apply andb_true_iff in H as [H1 H2].
  apply negb_true_iff in H1, H2, H3. now exists c, d.
Qed.

Lemma head_char_weave (s0 : string) (hs : list (string * string)) (c : ascii) :
  head_char s0 = Some c -> head_char (weave s0 hs) = Some c.
Proof.
  destruct s0 as [|x s0]; [discriminate |].
  destruct hs as [|[y s] hs]; trivial.
Qed.

Lemma all_delimit_map_holes (old s0 : string) (g : string -> string)
    (hs : list (string * string)) :
  all_delimit old s0 (map_holes g hs) = all_delimit old s0 hs.
Proof.
  unfold all_delimit, map_holes. f_equal.
  induction hs as [|[x s] hs IH]; simpl; [reflexivity | now rewrite IH].
Qed.

(** Replacement goes into the holes and leaves the literal text alone. *)
Lemma replace_weave (old new : string) :
  old <> EmptyString ->
  forall (hs : list (string * string)) (s0 : string),
    all_delimit old s0 hs = true ->
    replace old new (weave s0 hs) = weave s0 (map_holes (replace old new) hs).
Proof.
  intros Hne. induction hs as [|[x s] hs IH]; intros s0 H;
    apply andb_true_iff in H as [H0 Hall].
  - simpl. apply replace_absent; [assumption |].
    now destruct (delimits_inv _ _ H0) as (c & d & _ & _ & _ & _ & ?).
  - simpl in Hall. apply andb_true_iff in Hall as [Hs Hall].
    destruct (delimits_inv _ _ H0) as (c & d & _ & Hd & _ & Hdo & Habs).
    destruct (delimits_inv _ _ Hs) as (c' & d' & Hc' & _ & Hco' & _ & _).
    cbn [weave map_holes map fst snd].
    rewrite (replace_append_l old new Hne s0 _ d Hd Hdo).
    rewrite (replace_absent old new Hne s0 Habs). f_equal.
    rewrite (replace_append_r old new Hne x _ c'
               (head_char_weave s hs c' Hc') Hco').
    f_equal. apply IH. unfold all_delimit. now rewrite Hs, Hall.
Qed.

(** A token occurs in the woven text only if it occurs in a hole. *)
Lemma contains_weave (old : string) :
  old <> EmptyString ->
  forall (hs : list (string * string)) (s0 : string),
    all_delimit old s0 hs = true ->
    contains old (weave s0 hs) = existsb (fun xs => contains old (fst xs)) hs.
Proof.
  intros Hne. induction hs as [|[x s] hs IH]; intros s0 H;
    apply andb_true_iff in H as [H0 Hall].
  - simpl. now destruct (delimits_inv _ _ H0) as (c & d & _ & _ & _ & _ & ?).
  - simpl in Hall. apply andb_true_iff in Hall as [Hs Hall].
    destruct (delimits_inv _ _ H0) as (c & d & _ & Hd & _ & Hdo & Habs).
    destruct (delimits_inv _ _ Hs) as (c' & d' & Hc' & _ & Hco' & _ & _).
    cbn [weave existsb fst snd].
    rewrite (contains_append_l old Hne s0 _ d Hd Hdo), Habs. simpl orb.
    rewrite (contains_append_r old Hne x _ c'
               (head_char_weave s hs c' Hc') Hco').
    f_equal. apply IH. unfold all_delimit. now rewrite Hs, Hall.
Qed.

Lemma token_nonempty (p : placeholder) : token p <> EmptyString.
Proof. destruct p; discriminate. Qed.

(** A run of replacement steps goes into the holes. *)
Lemma fold_substitute_weave (f : fields) (l : list placeholder) :
  forall (hs : list (string * string)) (s0 : string),
    forallb (fun p => all_delimit (token p) s0 hs) l = true ->
    fold_left (substitute f) l (weave s0 hs)
    = weave s0 (map_holes (fold_left (substitute f) l) hs).
Proof.
  induction l as [|p l IH]; intros hs s0 H.
  - simpl. unfold map_holes. f_equal.
    induction hs as [|[x s] hs IHhs]; simpl; [reflexivity | now rewrite <- IHhs].
  - simpl in H. apply andb_true_iff in H as [Hp Hl].
    cbn [fold_left]. unfold substitute at 2.
    rewrite (replace_weave _ _ (token_nonempty p) hs s0 Hp).
    rewrite IH.
    + f_equal. unfold map_holes. rewrite map_map. reflexivity.
    + rewrite <- Hl. clear. induction l as [|q l IHl]; [reflexivity |].
      simpl. now rewrite IHl, all_delimit_map_holes.
Qed.

Lemma render_fold (template : string) (f : fields) :
  render template f = fold_left (substitute f) substitution_order template.
Proof. reflexivity. Qed.

(** A value without the tokens of the steps is left as it is. *)
Lemma fold_substitute_absent (f : fields) (l : list placeholder) (v : string) :
  (forall q, In q l -> contains (token q) v = false) ->
  fold_left (substitute f) l v = v.
Proof.
  induction l as [|p l IH]; intros H; [reflexivity |].
  cbn [fold_left]. unfold substitute at 2.
  rewrite (replace_absent _ _ (token_nonempty p)) by (apply H; now left).
  apply IH. intros q Hq. apply H. now right.
Qed.

Lemma placeholder_eqb_eq (p q : placeholder) :
  placeholder_eqb p q = true -> p = q.
Proof. destruct p, q; simpl; intros H; try reflexivity; discriminate. Qed.

(** No token occurs in another one. *)
Lemma token_not_in_token (p q : placeholder) :
  placeholder_eqb p q = false -> contains (token q) (token p) = false.
Proof. destruct p, q; simpl; intros H; try reflexivity; discriminate. Qed.

Lemma fold_substitute_token_after (f : fields) (p : placeholder)
    (l : list placeholder) :
  In p l ->
  fold_left (substitute f) l (token p)
  = fold_left (substitute f) (after p l) (value f p).
Proof.
  induction l as [|q l IH]; intros Hin; [contradiction |].
  cbn [fold_left after]. unfold substitute at 2.
  destruct (placeholder_eqb p q) eqn:E.
  - apply placeholder_eqb_eq in E. subst q.
    now rewrite (replace_self _ _ (token_nonempty p)).
  - rewrite (replace_absent _ _ (token_nonempty q))
      by (now apply token_not_in_token).
    apply IH. destruct Hin as [-> | Hin]; [| assumption].
    destruct p; discriminate.
Qed.

(** The steps before [p] leave its token alone, the step of [p] puts the
    value in its place, and the later steps go over the value. *)
Lemma fold_substitute_token (f : fields) (p : placeholder) :
  fold_left (substitute f) substitution_order (token p) = substituted f p.
Proof.
  apply fold_substitute_token_after.
  destruct p; simpl; tauto.
Qed.

Lemma well_delimited_all (s0 : string) (ps : list (placeholder * string))
    (h : placeholder -> string) (l : list placeholder) :
  well_delimited s0 ps = true ->
  (forall p, In p l -> In p substitution_order) ->
  forallb (fun p => all_delimit (token p) s0
                      (map (fun ps => (h (fst ps), snd ps)) ps)) l = true.
Proof.
  unfold well_delimited. intros H Hin.
  apply forallb_forall. intros p Hp.
  rewrite forallb_forall in H. specialize (H p (Hin p Hp)).
  unfold all_delimit. apply andb_true_iff in H as [H0 H].
  rewrite H0. cbn [andb]. rewrite <- H. clear.
  induction ps as [|[q s] ps IH]; simpl; [reflexivity | now rewrite IH].
Qed.

(** The shape of a rendered document: in a well delimited template every
    placeholder is replaced by its value as the later steps leave it. *)
Lemma render_fill (s0 : string) (ps : list (placeholder * string))
    (f : fields) :
  well_delimited s0 ps = true ->
  render (fill token s0 ps) f = fill (substituted f) s0 ps.
Proof.
  intros H. rewrite render_fold. unfold fill.
  rewrite fold_substitute_weave by (now apply well_delimited_all).
  f_equal. unfold map_holes. rewrite map_map.
  apply map_ext. intros [p s]. cbn [fst snd].
  now rewrite fold_substitute_token.
Qed.

Lemma prompt_template_fill : PROMPT_TEMPLATE = fill token seg0 prompt_holes.
Proof. vm_compute. reflexivity. Qed.

Lemma prompt_template_well_delimited :
  well_delimited seg0 prompt_holes = true.
Proof. vm_compute. reflexivity. Qed.

(** The shape of every document the program renders. *)
Lemma render_layout (f : fields) :
  render PROMPT_TEMPLATE f = layout (substituted f).
Proof.
  rewrite prompt_template_fill.
  apply render_fill, prompt_template_well_delimited.
Qed.

(** * [generate_prompt] as gathering, validation and rendering *)

Lemma generate_prompt_eq (s : App) :
  generate_prompt s
  = match validate (gather s) with
    | Some msg => (s, [showerror "Input Error" msg])
    | None =>
        (set_output_text_area
           (mkText (render PROMPT_TEMPLATE (gather s)) DISABLED) s, [])
    end.
Proof.
  unfold generate_prompt, validate, gather, render.
  cbn [transcript_text meeting_date meeting_body report_type specific_topic
       supporting_docs style_guidelines].
  destruct (truthy (strip (text_get (transcript_text_area s))));
    [| reflexivity].
  destruct (truthy (strip (date_entry s))); [| reflexivity].
  destruct (truthy (strip (body_entry s))); [| reflexivity].
  cbn [negb].
  destruct ((report_type_var s =? "Topic-Specific")%string
            && negb (truthy
                       (if (report_type_var s =? "Topic-Specific")%string
                        then strip (topic_entry s) else "N/A")));
    reflexivity.
Qed.

Lemma displayed_rendered (s : App) :
  validate (gather s) = None ->
  displayed s = render PROMPT_TEMPLATE (gather s).
Proof.
  intros H. unfold displayed. rewrite generate_prompt_eq, H. reflexivity.
Qed.

Lemma truthy_false (s : string) : truthy s = false <-> s = EmptyString.
Proof. destruct s; simpl; split; congruence. Qed.

Lemma set_output_same (s : App) :
  set_output_text_area (output_text_area s) s = s.
Proof. destruct s; reflexivity. Qed.

Lemma gather_set_output (w : Text) (s : App) :
  gather (set_output_text_area w s) = gather s.
Proof. reflexivity. Qed.

Lemma layout_unfold (h : placeholder -> string) :
  layout h
  = seg0 ++ h MEETING_BODY ++ seg1 ++ h MEETING_DATE ++ seg2
    ++ h MEETING_TRANSCRIPT_TEXT ++ seg3 ++ h MEETING_BODY ++ seg4
    ++ h MEETING_DATE ++ seg5 ++ h REPORT_TYPE ++ seg6
    ++ h SPECIFIC_TOPIC ++ seg7 ++ h OPTIONAL_SUPPORTING_DOCS ++ seg8
    ++ h STYLE_GUIDELINES ++ seg9 ++ h SPECIFIC_TOPIC ++ seg10
    ++ h REPORT_TYPE ++ seg11.
Proof. reflexivity. Qed.

(** * Validation *)

(** C3: when a required field is empty once trimmed (the transcript, the
    date or the body; or the topic of a topic-specific report), nothing is
    rendered: the whole form, the displayed output included, is left as it
    was, and one input error is shown. *)
Theorem missing_required_field_skips_rendering (s : App) :
  strip (text_get (transcript_text_area s)) = EmptyString
  \/ strip (date_entry s) = EmptyString
  \/ strip (body_entry s) = EmptyString
  \/ (report_type_var s = "Topic-Specific"
      /\ strip (topic_entry s) = EmptyString) ->
  exists msg, generate_prompt s = (s, [showerror "Input Error" msg]).
Proof.
  intros H.
  assert (exists msg, validate (gather s) = Some msg) as [msg Hv].
  { unfold validate, gather.
    cbn [transcript_text meeting_date meeting_body report_type specific_topic].
    destruct (truthy (strip (text_get (transcript_text_area s)))) eqn:Et;
      cbn [negb]; [| eauto].
    destruct (truthy (strip (date_entry s))) eqn:Ed; cbn [negb]; [| eauto].
    destruct (truthy (strip (body_entry s))) eqn:Eb; cbn [negb]; [| eauto].
    destruct H as [H | [H | [H | [Hr Ht]]]];
      try (rewrite H in *; discriminate).
    rewrite Hr, Ht. cbn. eauto. }
  exists msg. now rewrite generate_prompt_eq, Hv.
Qed.

Lemma missing_required_field_witness :
  exists msg,
    generate_prompt council_no_topic
    = (council_no_topic, [showerror "Input Error" msg]).
Proof.
  apply (missing_required_field_skips_rendering council_no_topic).
  right; right; right. split; reflexivity.
Defined.

(** * Determinism *)

(** C8: the displayed document is a function of the gathered field values
    alone (two forms with the same field values display the same document,
    whatever was displayed before), and generating again changes nothing. *)
Theorem rendering_deterministic :
  (forall s1 s2 : App,
      gather s1 = gather s2 -> validate (gather s1) = None ->
      displayed s1 = displayed s2)
  /\ (forall s : App,
         generate_prompt (fst (generate_prompt s)) = generate_prompt s).
Proof.
  split.
  - intros s1 s2 Hg Hv.
    rewrite (displayed_rendered s1 Hv).
    rewrite Hg in Hv. rewrite (displayed_rendered s2 Hv). now rewrite Hg.
  - intros s. rewrite (generate_prompt_eq s).
    destruct (validate (gather s)) as [msg|] eqn:Hv; cbn [fst].
    + rewrite generate_prompt_eq, Hv. reflexivity.
    + rewrite generate_prompt_eq, gather_set_output, Hv.
      destruct s; reflexivity.
Qed.

Lemma rendering_deterministic_witness :
  displayed council = displayed council_again.
Proof.
  apply (proj1 rendering_deterministic council council_again);
    vm_compute; reflexivity.
Defined.

(** * Loading a single file *)

Lemma set_transcript_same (s : App) :
  set_transcript_text_area (transcript_text_area s) s = s.
Proof. destruct s; reflexivity. Qed.

Lemma set_style_same (s : App) :
  set_style_text_area (style_text_area s) s = s.
Proof. destruct s; reflexivity. Qed.

(** C9: when the file chosen for the transcript or for the style guidelines
    cannot be read, the load stops there: the form, the target text area
    included, is left as it was, and the error is shown. *)
Theorem single_file_load_failure_keeps_content
    (fs : filesystem) (filepath e : string) (s : App) :
  filepath <> EmptyString ->
  fs filepath = ReadError e ->
  let report :=
    [showerror "Error Reading File"
       ("Failed to read file: " ++ filepath ++ nl ++ e)] in
  load_transcript_file fs filepath s = (s, report)
  /\ load_style_file fs filepath s = (s, report).
Proof.
  intros Hne Hfs report.
  unfold load_transcript_file, load_style_file, _load_file_content.
  destruct filepath as [|c p]; [congruence |].
  cbn [truthy negb]. rewrite Hfs.
  now rewrite set_transcript_same, set_style_same.
Qed.

Lemma single_file_load_failure_witness :
  load_transcript_file two_files "/docs/C.txt" council_again
  = (council_again,
     [showerror "Error Reading File"
        ("Failed to read file: " ++ "/docs/C.txt" ++ nl
         ++ "[Errno 2] No such file or directory")])
  /\ load_style_file two_files "/docs/C.txt" council_again
     = (council_again,
        [showerror "Error Reading File"
           ("Failed to read file: " ++ "/docs/C.txt" ++ nl
            ++ "[Errno 2] No such file or directory")]).
Proof.
  apply (single_file_load_failure_keeps_content two_files "/docs/C.txt"
           "[Errno 2] No such file or directory" council_again).
  - discriminate.
  - reflexivity.
Defined.

(** * Appending several files *)

(** The loop appends the readable files in selection order, counts them and
    warns about each of the others. *)
Lemma append_loop_spec (fs : filesystem) (filepaths : list string) :
  forall (w : Text) (n : nat),
    text_state w = NORMAL ->
    append_loop fs filepaths w n
    = (mkText (text_content w ++ assemble (readable fs filepaths)) NORMAL,
       n + List.length (readable fs filepaths),
       warnings fs filepaths).
Proof.
  induction filepaths as [|filepath rest IH]; intros w n Hw.
  - cbn. rewrite append_nil_r, Nat.add_0_r. destruct w; simpl in *; now subst.
  - cbn [append_loop readable warnings].
    destruct (fs filepath) as [content | e].
    + unfold text_insert_end. rewrite Hw. cbn [text_state text_content].
      rewrite IH by reflexivity. cbn [text_content assemble List.length].
      rewrite !append_assoc. f_equal. f_equal. lia.
    + rewrite IH by assumption. reflexivity.
Qed.

Lemma load_and_append_docs_files_spec (fs : filesystem)
    (filepaths : list string) (s : App) :
  filepaths <> [] ->
  load_and_append_docs_files fs filepaths s
  = (set_docs_text_area
       (mkText (text_content (docs_text_area s)
                ++ assemble (readable fs filepaths)) NORMAL) s,
     (warnings fs filepaths
      ++ if (0 <? List.length (readable fs filepaths))%nat
         then [summary (List.length (readable fs filepaths))]
         else [])%list).
Proof.
  intros Hne. unfold load_and_append_docs_files.
  destruct filepaths as [|p ps]; [congruence |].
  rewrite append_loop_spec by reflexivity. reflexivity.
Qed.

Lemma readable_all (fs : filesystem) (files : list (string * string)) :
  Forall (fun file => fs (fst file) = ReadOk (snd file)) files ->
  readable fs (map fst files) = files.
Proof.
  induction 1 as [|[p c] files Hp _ IH]; [reflexivity |].
  cbn [map fst readable]. cbn [fst snd] in Hp. now rewrite Hp, IH.
Qed.

Lemma readable_warnings_length (fs : filesystem) (filepaths : list string) :
  List.length (readable fs filepaths) + List.length (warnings fs filepaths)
  = List.length filepaths.
Proof.
  induction filepaths as [|p ps IH]; [reflexivity |].
  cbn [readable warnings]. destruct (fs p); cbn [List.length]; lia.
Qed.

(** The separator as text. *)
Lemma separator_text (filename : string) :
  separator filename
  = "

--- Supporting Doc: " ++ filename ++ " ---

".
Proof. reflexivity. Qed.

Lemma assemble_text (files : list (string * string)) :
  assemble files
  = fold_right
      (fun file rest =>
         ("

--- Supporting Doc: " ++ basename (fst file) ++ " ---

") ++ snd file ++ rest)
      EmptyString files.
Proof.
  induction files as [|[p c] files IH]; [reflexivity |].
  cbn [assemble fold_right fst snd]. now rewrite IH, separator_text.
Qed.

(** C6: when every selected file can be read, the supporting documents text
    area gains, after what it held, for each file in selection order a
    separator and then the file's content; the separator is two newlines,
    the label [--- Supporting Doc: name ---] with the file's name (its path
    without the directories), and two newlines.  For two files A (content
    X) and B (content Y) that is the separator of A and X, then the
    separator of B and Y. *)
Theorem multi_file_append_in_selection_order (fs : filesystem) (s : App) :
  let labeled_separator name :=
    "

--- Supporting Doc: " ++ name ++ " ---

" in
  (forall files : list (string * string),
      Forall (fun file => fs (fst file) = ReadOk (snd file)) files ->
      text_content
        (docs_text_area (fst (load_and_append_docs_files fs (map fst files) s)))
      = text_content (docs_text_area s)
        ++ fold_right
             (fun file rest =>
                labeled_separator (basename (fst file)) ++ snd file ++ rest)
             EmptyString files)
  /\ (forall A B X Y : string,
         fs A = ReadOk X -> fs B = ReadOk Y ->
         text_content
           (docs_text_area (fst (load_and_append_docs_files fs [A; B] s)))
         = text_content (docs_text_area s)
           ++ (labeled_separator (basename A) ++ X)
           ++ (labeled_separator (basename B) ++ Y)).
Proof.
  intros labeled_separator.
  assert (forall files : list (string * string),
      Forall (fun file => fs (fst file) = ReadOk (snd file)) files ->
      text_content
        (docs_text_area (fst (load_and_append_docs_files fs (map fst files) s)))
      = text_content (docs_text_area s) ++ assemble files) as Hall.
  { intros files Hfiles. destruct files as [|file files].
    - cbn. now rewrite append_nil_r.
    - rewrite load_and_append_docs_files_spec by discriminate.
      now rewrite readable_all. }
  split.
  - intros files Hfiles. rewrite (Hall files Hfiles), assemble_text.
    reflexivity.
  - intros A B X Y HA HB.
    assert (Forall (fun file => fs (fst file) = ReadOk (snd file))
              [(A, X); (B, Y)]) as Hfiles by (repeat constructor; assumption).
    apply Hall in Hfiles. cbn [map fst] in Hfiles. rewrite Hfiles.
    cbn [assemble]. rewrite !separator_text. unfold labeled_separator.
    now rewrite append_nil_r, !append_assoc.
Qed.

Lemma multi_file_append_witness :
  text_content
    (docs_text_area
       (fst (load_and_append_docs_files two_files
               ["/docs/A.txt"; "/docs/B.md"] council_zoning_padded)))
  = " " ++ ("

--- Supporting Doc: A.txt ---

" ++ "X") ++ ("

--- Supporting Doc: B.md ---

" ++ "Y").
Proof.
  apply (proj2 (multi_file_append_in_selection_order two_files
                  council_zoning_padded)
           "/docs/A.txt" "/docs/B.md" "X" "Y"); reflexivity.
Defined.

(** C7, as the code has it: in a batch every file that cannot be read gets
    its own warning and is skipped, the files that can be read are appended
    in selection order, every selected file is one or the other, and the
    summary with the number of files appended follows the warnings when at
    least one file was appended; when none was, no summary is shown. *)
Theorem multi_file_append_skips_failures (fs : filesystem)
    (filepaths : list string) (s : App) :
  filepaths <> [] ->
  let loaded := readable fs filepaths in
  load_and_append_docs_files fs filepaths s
  = (set_docs_text_area
       (mkText (text_content (docs_text_area s) ++ assemble loaded) NORMAL) s,
     (warnings fs filepaths
      ++ if (0 <? List.length loaded)%nat
         then [summary (List.length loaded)] else [])%list)
  /\ List.length loaded + List.length (warnings fs filepaths)
     = List.length filepaths.
Proof.
  intros Hne loaded. split.
  - now apply load_and_append_docs_files_spec.
  - apply readable_warnings_length.
Qed.

Lemma multi_file_append_skips_failures_witness :
  load_and_append_docs_files two_files
    ["/docs/A.txt"; "/docs/C.txt"; "/docs/B.md"] council
  = (set_docs_text_area
       (mkText (text_content (docs_text_area council)
                ++ assemble [("/docs/A.txt", "X"); ("/docs/B.md", "Y")])
               NORMAL) council,
     [skip_warning "/docs/C.txt" "[Errno 2] No such file or directory";
      summary 2])
  /\ 2 + 1 = 3.
Proof.
  apply (multi_file_append_skips_failures two_files
           ["/docs/A.txt"; "/docs/C.txt"; "/docs/B.md"] council).
  discriminate.
Defined.

(** C7 as it is written fails: a batch in which no file can be read ends
    with the warnings alone, no summary follows. *)
Lemma multi_file_append_no_summary :
  snd (load_and_append_docs_files two_files ["/docs/C.txt"] council)
  = [skip_warning "/docs/C.txt" "[Errno 2] No such file or directory"]
  /\ existsb is_showinfo
       (snd (load_and_append_docs_files two_files ["/docs/C.txt"] council))
     = false.
Proof. split; reflexivity. Qed.

(** * What the rendered document contains *)

Lemma startswith_append_r (pre s b : string) :
  startswith pre s = true -> startswith pre (s ++ b) = true.
Proof.
  revert s; induction pre as [|c pre IH]; intros [|d s] H; simpl in *;
    try reflexivity; try discriminate.
  apply andb_true_iff in H as [-> H]. now rewrite IH.
Qed.

Lemma contains_append_intro_r (sub s b : string) :
  contains sub s = true -> contains sub (s ++ b) = true.
Proof.
  induction s as [|c s IH]; intros H.
  - destruct sub; [| discriminate]. destruct b; reflexivity.
  - simpl in H. apply orb_true_iff in H as [H | H].
    + apply (startswith_append_r _ _ b) in H.
      change (String c s ++ b) with (String c (s ++ b)) in *.
      simpl. now rewrite H.
    + change (String c s ++ b) with (String c (s ++ b)).
      simpl. rewrite (IH H). apply orb_true_r.
Qed.

Lemma contains_append_intro_l (sub a s : string) :
  contains sub s = true -> contains sub (a ++ s) = true.
Proof.
  intros H. induction a as [|c a IH]; [exact H |].
  change (String c a ++ s) with (String c (a ++ s)).
  simpl. rewrite IH. apply orb_true_r.
Qed.

Lemma contains_middle (sub a v b : string) :
  contains sub v = true -> contains sub (a ++ v ++ b) = true.
Proof.
  intros H. now apply contains_append_intro_l, contains_append_intro_r.
Qed.

Lemma weave_occurs (x s : string) (hs : list (string * string)) :
  In (x, s) hs ->
  forall s0, exists a b, weave s0 hs = a ++ x ++ b.
Proof.
  induction hs as [|[y t] hs IH]; intros Hin s0; [contradiction |].
  destruct Hin as [E | Hin].
  - inversion E; subst. exists s0, (weave s hs). reflexivity.
  - destruct (IH Hin t) as (a & b & E). cbn [weave]. rewrite E.
    exists (s0 ++ y ++ a), b. now rewrite !append_assoc.
Qed.

(** The text put for a placeholder is part of the document. *)
Lemma layout_occurs (h : placeholder -> string) (p : placeholder) :
  exists a b, layout h = a ++ h p ++ b.
Proof.
  unfold layout, fill.
  assert (exists s, In (p, s) prompt_holes) as [s Hin]
    by (destruct p; simpl; eauto 15).
  apply (weave_occurs (h p) s).
  apply (in_map (fun ps => (h (fst ps), snd ps)) _ _ Hin).
Qed.

Lemma in_substitution_order (p : placeholder) : In p substitution_order.
Proof. destruct p; simpl; tauto. Qed.

Lemma token_free_inv (f : fields) :
  token_free f = true ->
  forall p q, contains (token q) (value f p) = false.
Proof.
  unfold token_free. intros H p q.
  rewrite forallb_forall in H. specialize (H p (in_substitution_order p)).
  rewrite forallb_forall in H. specialize (H q (in_substitution_order q)).
  now apply negb_true_iff in H.
Qed.

Lemma token_head (q : placeholder) : head_char (token q) = Some "["%char.
Proof. destruct q; reflexivity. Qed.

(** A value without an opening bracket is left alone by every step. *)
Lemma fold_substitute_no_bracket (f : fields) (l : list placeholder)
    (v : string) :
  char_in "["%char v = false -> fold_left (substitute f) l v = v.
Proof.
  intros H. apply fold_substitute_absent. intros q _.
  apply (contains_head_absent _ _ _ (token_head q) H).
Qed.

(** C1, as the code has it: a field value is inserted verbatim when it
    contains no token of a placeholder replaced after its own (the value of
    the style guidelines, replaced last, always is); tokens of its own and of
    earlier placeholders that it quotes then appear unchanged in the
    document. *)
Theorem value_verbatim_unless_later_token (f : fields) (p : placeholder) :
  (forall q, In q (later_steps p) -> contains (token q) (value f p) = false) ->
  render PROMPT_TEMPLATE f = layout (substituted f)
  /\ substituted f p = value f p
  /\ (exists a b, render PROMPT_TEMPLATE f = a ++ value f p ++ b)
  /\ (forall q, contains (token q) (value f p) = true ->
                contains (token q) (render PROMPT_TEMPLATE f) = true).
Proof.
  intros H.
  assert (substituted f p = value f p) as Hp
    by (now apply fold_substitute_absent).
  assert (exists a b, render PROMPT_TEMPLATE f = a ++ value f p ++ b)
    as (a & b & E).
  { rewrite render_layout, <- Hp. apply layout_occurs. }
  repeat split.
  - apply render_layout.
  - exact Hp.
  - now exists a, b.
  - intros q Hq. rewrite E. now apply contains_middle.
Qed.

Lemma value_verbatim_witness :
  render PROMPT_TEMPLATE date_quoting_transcript
  = layout (substituted date_quoting_transcript)
  /\ substituted date_quoting_transcript MEETING_DATE
     = "[MEETING_TRANSCRIPT_TEXT]"
  /\ (exists a b,
         render PROMPT_TEMPLATE date_quoting_transcript
         = a ++ "[MEETING_TRANSCRIPT_TEXT]" ++ b)
  /\ (forall q,
         contains (token q) "[MEETING_TRANSCRIPT_TEXT]" = true ->
         contains (token q) (render PROMPT_TEMPLATE date_quoting_transcript)
         = true).
Proof.
  apply (value_verbatim_unless_later_token date_quoting_transcript
           MEETING_DATE).
  intros q Hq. simpl in Hq.
  destruct Hq as [<- | [<- | [<- | [<- | [<- | []]]]]]; reflexivity.
Defined.

(** C1 as it is written fails: the transcript quotes the date placeholder,
    validation passes, and the document displayed holds neither the token
    nor the transcript as it was entered. *)
Lemma quoted_later_token_is_substituted :
  validate (gather council_quoting_date) = None
  /\ contains "[MEETING_DATE]" (transcript_text (gather council_quoting_date))
     = true
  /\ contains "[MEETING_DATE]" (displayed council_quoting_date) = false
  /\ contains (transcript_text (gather council_quoting_date))
       (displayed council_quoting_date) = false
  /\ contains "See 2024-05-01 minutes" (displayed council_quoting_date)
     = true.
Proof. vm_compute. repeat split. Qed.

Lemma substituted_token_free (f : fields) (p : placeholder) :
  token_free f = true -> substituted f p = value f p.
Proof.
  intros H. apply fold_substitute_absent. intros q _.
  now apply token_free_inv.
Qed.

Lemma fill_token_free (f : fields) (s0 : string)
    (ps : list (placeholder * string)) (q : placeholder) :
  well_delimited s0 ps = true -> token_free f = true ->
  contains (token q) (fill (value f) s0 ps) = false.
Proof.
  intros Hwd Hf. unfold fill.
  rewrite contains_weave.
  - induction ps as [|[p s] ps IH]; [reflexivity |].
    cbn [map existsb fst snd]. rewrite (token_free_inv f Hf p q).
    apply IH. unfold well_delimited in *.
    rewrite forallb_forall in *. intros r Hr. specialize (Hwd r Hr).
    cbn [forallb snd] in Hwd.
    apply andb_true_iff in Hwd as [H0 Hwd].
    apply andb_true_iff in Hwd as [_ Hwd]. now rewrite H0, Hwd.
  - apply token_nonempty.
  - pose proof (well_delimited_all s0 ps (value f) [q] Hwd) as H.
    cbn [forallb] in H. rewrite andb_true_r in H. apply H.
    intros r _. apply in_substitution_order.
Qed.

(** A token occurs in a filled template only inside what fills a hole. *)
Lemma contains_fill (h : placeholder -> string) (s0 : string)
    (ps : list (placeholder * string)) (q : placeholder) :
  well_delimited s0 ps = true ->
  contains (token q) (fill h s0 ps)
  = existsb (fun x => contains (token q) (h (fst x))) ps.
Proof.
  intros Hwd. unfold fill. rewrite contains_weave.
  - clear Hwd. induction ps as [|[p s] ps IH]; [reflexivity |].
    cbn [map existsb fst snd]. now rewrite IH.
  - apply token_nonempty.
  - pose proof (well_delimited_all s0 ps h [q] Hwd) as H.
    cbn [forallb] in H. rewrite andb_true_r in H. apply H.
    intros r _. apply in_substitution_order.
Qed.

Lemma fill_substituted_token_free (f : fields) (s0 : string)
    (ps : list (placeholder * string)) :
  token_free f = true -> fill (substituted f) s0 ps = fill (value f) s0 ps.
Proof.
  intros Hf. unfold fill. f_equal. apply map_ext. intros [p s].
  cbn [fst snd]. now rewrite substituted_token_free.
Qed.

(** C2: no placeholder of the template is left in the prompt.  Whenever
    [generate_prompt] renders, the prompt displayed is the literal text of
    the template, which holds no token, with every placeholder replaced by
    its value (as the later replacements leave it); so a token occurs in
    the prompt only inside the text that replaced a placeholder, that is
    where the field values brought it in, and when no value contains a
    token no token occurs at all.  The same holds of the replacements on
    any template whose placeholders stand between pieces of literal text
    that hold no token and start and end with a character of no token. *)
Theorem every_placeholder_is_replaced :
  (PROMPT_TEMPLATE = fill token seg0 prompt_holes
   /\ well_delimited seg0 prompt_holes = true)
  /\ (forall s : App,
         validate (gather s) = None ->
         displayed s = layout (substituted (gather s))
         /\ (forall q,
                contains (token q) (displayed s)
                = existsb
                    (fun x =>
                       contains (token q) (substituted (gather s) (fst x)))
                    prompt_holes)
         /\ (token_free (gather s) = true ->
             displayed s = layout (value (gather s))
             /\ forall q, contains (token q) (displayed s) = false))
  /\ (forall (s0 : string) (ps : list (placeholder * string)) (f : fields),
         well_delimited s0 ps = true ->
         render (fill token s0 ps) f = fill (substituted f) s0 ps
         /\ (forall q,
                contains (token q) (render (fill token s0 ps) f)
                = existsb
                    (fun x => contains (token q) (substituted f (fst x))) ps)
         /\ (token_free f = true ->
             forall q, contains (token q) (render (fill token s0 ps) f)
                       = false)).
Proof.
  split; [split; [apply prompt_template_fill
                 | apply prompt_template_well_delimited] |].
  split.
  - intros s Hv. rewrite (displayed_rendered s Hv), render_layout.
    split; [reflexivity |]. split.
    + intros q. apply contains_fill, prompt_template_well_delimited.
    + intros Hf. unfold layout.
      rewrite (fill_substituted_token_free _ _ _ Hf).
      split; [reflexivity |].
      intros q.
      apply fill_token_free; [apply prompt_template_well_delimited | exact Hf].
  - intros s0 ps f Hwd. rewrite (render_fill s0 ps f Hwd).
    split; [reflexivity |]. split.
    + intros q. now apply contains_fill.
    + intros Hf q. rewrite (fill_substituted_token_free _ _ _ Hf).
      now apply fill_token_free.
Qed.

Lemma every_placeholder_is_replaced_witness :
  displayed council_quoting_in_style
  = layout (substituted (gather council_quoting_in_style))
  /\ contains "[STYLE_GUIDELINES]" (displayed council_quoting_in_style)
     = false
  /\ contains "[MEETING_DATE]" (displayed council)
     = false.
Proof.
  assert (validate (gather council_quoting_in_style) = None) as Hv
    by (vm_compute; reflexivity).
  assert (validate (gather council) = None) as Hv'
    by (vm_compute; reflexivity).
  destruct (proj1 (proj2 every_placeholder_is_replaced)
              council_quoting_in_style Hv) as (H1 & H2 & _).
  destruct (proj1 (proj2 every_placeholder_is_replaced) council Hv')
    as (_ & _ & H3).
  split; [exact H1 |]. split.
  - apply (eq_trans (H2 STYLE_GUIDELINES)). vm_compute. reflexivity.
  - assert (token_free (gather council) = true) as Hf
      by (vm_compute; reflexivity).
    apply (proj2 (H3 Hf) MEETING_DATE).
Defined.

(** * The order of the replacements *)

Lemma token_split (q : placeholder) :
  exists o, token q = String "["%char o /\ char_in "["%char o = false.
Proof. destruct q; eexists; split; reflexivity. Qed.

(** The step of another placeholder leaves a token alone, wherever it
    stands. *)
Lemma replace_other_token (r q : placeholder) (v a b : string) :
  placeholder_eqb r q = false ->
  replace (token r) v (a ++ token q ++ b)
  = replace (token r) v a ++ token q ++ replace (token r) v b.
Proof.
  intros H. destruct (token_split r) as (o & E & Ho).
  transitivity (replace (token r) v a ++ replace (token r) v (token q ++ b)).
  - destruct (token_split q) as (o' & E' & _). rewrite E'.
    change (String "["%char o' ++ b) with (String "["%char (o' ++ b)).
    apply (replace_append_head _ _ (token_nonempty r) a _ "["%char o E Ho).
  - f_equal. destruct r, q; try discriminate H; reflexivity.
Qed.

(** The step of a placeholder replaces its token wherever it stands. *)
Lemma replace_own_token (q : placeholder) (v a b : string) :
  replace (token q) v (a ++ token q ++ b)
  = replace (token q) v a ++ v ++ replace (token q) v b.
Proof.
  destruct (token_split q) as (o & E & Ho).
  apply (replace_occurrence _ _ (token_nonempty q) a b "["%char o E Ho).
Qed.

Lemma fold_substitute_keeps_token (f : fields) (q : placeholder)
    (l : list placeholder) :
  (forall r, In r l -> placeholder_eqb r q = false) ->
  forall a b,
    fold_left (substitute f) l (a ++ token q ++ b)
    = fold_left (substitute f) l a ++ token q ++ fold_left (substitute f) l b.
Proof.
  induction l as [|r l IH]; intros H a b; [reflexivity |].
  cbn [fold_left]. unfold substitute at 2 4 6.
  rewrite replace_other_token by (apply H; now left).
  apply IH. intros r' Hr'. apply H. now right.
Qed.

Lemma later_steps_split (p q : placeholder) :
  In q (later_steps p) ->
  later_steps p = (between p q ++ q :: later_steps q)%list
  /\ forall r, In r (between p q) -> placeholder_eqb r q = false.
Proof.
  intros H.
  destruct p, q; simpl in H; try (exfalso; intuition discriminate);
    (split; [reflexivity |]);
    intros r Hr; simpl in Hr;
    repeat (destruct Hr as [<- | Hr]; [reflexivity |]); contradiction.
Qed.

(** A token quoted in the value of an earlier placeholder is replaced at the
    step of its own placeholder, and only the steps after that one go over
    the value put there. *)
Lemma quoted_token_replaced (f : fields) (p q : placeholder) (a b : string) :
  In q (later_steps p) ->
  value f p = a ++ token q ++ b ->
  substituted f p
  = fold_left (substitute f) (later_steps q)
      (substitute f (fold_left (substitute f) (between p q) a) q
       ++ value f q
       ++ substitute f (fold_left (substitute f) (between p q) b) q).
Proof.
  intros Hin Hv. unfold substituted.
  destruct (later_steps_split p q Hin) as [-> Hbetween].
  rewrite fold_left_app. cbn [fold_left]. f_equal.
  rewrite Hv, fold_substitute_keeps_token by assumption.
  unfold substitute. apply replace_own_token.
Qed.

(** What the later steps leave of a transcript that quotes the date
    placeholder, when nothing else has a bracket. *)
Lemma transcript_quoting_date (f : fields) (a b : string) :
  transcript_text f = a ++ "[MEETING_DATE]" ++ b ->
  char_in "["%char a = false ->
  char_in "["%char b = false ->
  char_in "["%char (meeting_date f) = false ->
  substituted f MEETING_TRANSCRIPT_TEXT = a ++ meeting_date f ++ b.
Proof.
  intros Ht Ha Hb Hd.
  rewrite (quoted_token_replaced f MEETING_TRANSCRIPT_TEXT MEETING_DATE a b)
    by (simpl; tauto || exact Ht).
  change (between MEETING_TRANSCRIPT_TEXT MEETING_DATE) with (@nil placeholder).
  cbn [fold_left value]. unfold substitute at 2 3. cbn [token value].
  rewrite !(replace_absent "[MEETING_DATE]" (meeting_date f)
              ltac:(discriminate))
    by (apply (contains_head_absent "[MEETING_DATE]" _ "["%char eq_refl);
        assumption).
  apply fold_substitute_no_bracket.
  rewrite !char_in_append, Ha, Hd, Hb. reflexivity.
Qed.

(** C10: whenever [generate_prompt] renders, the prompt displayed is the
    template after seven replacements made one after the other, in the
    order transcript, date, body, report type, topic, supporting documents,
    style guidelines, each going over the whole document so far.  So in
    the prompt every placeholder stands replaced by its value as the later
    replacements leave it, and a token quoted in the value of a placeholder
    replaced earlier is replaced in its turn: a transcript that quotes the
    date placeholder is displayed with the date at that place. *)
Theorem later_replacements_rescan_earlier_values :
  (forall s : App,
      validate (gather s) = None ->
      let f := gather s in
      displayed s
      = fold_left (substitute f)
          [MEETING_TRANSCRIPT_TEXT; MEETING_DATE; MEETING_BODY; REPORT_TYPE;
           SPECIFIC_TOPIC; OPTIONAL_SUPPORTING_DOCS; STYLE_GUIDELINES]
          PROMPT_TEMPLATE
      /\ displayed s = layout (substituted f)
      /\ (forall (p q : placeholder) (a b : string),
             In q (later_steps p) ->
             value f p = a ++ token q ++ b ->
             exists pre post,
               displayed s
               = pre
                 ++ fold_left (substitute f) (later_steps q)
                      (substitute f
                         (fold_left (substitute f) (between p q) a) q
                       ++ value f q
                       ++ substitute f
                            (fold_left (substitute f) (between p q) b) q)
                 ++ post)
      /\ (forall a b : string,
             transcript_text f = a ++ "[MEETING_DATE]" ++ b ->
             char_in "["%char a = false ->
             char_in "["%char b = false ->
             char_in "["%char (meeting_date f) = false ->
             exists pre post,
               displayed s
               = pre ++ seg2 ++ (a ++ meeting_date f ++ b) ++ seg3 ++ post))
  /\ (forall (template : string) (f : fields),
         render template f
         = fold_left (substitute f)
             [MEETING_TRANSCRIPT_TEXT; MEETING_DATE; MEETING_BODY; REPORT_TYPE;
              SPECIFIC_TOPIC; OPTIONAL_SUPPORTING_DOCS; STYLE_GUIDELINES]
             template)
  /\ (forall f : fields, render PROMPT_TEMPLATE f = layout (substituted f))
  /\ (forall (f : fields) (p q : placeholder) (a b : string),
         In q (later_steps p) ->
         value f p = a ++ token q ++ b ->
         substituted f p
         = fold_left (substitute f) (later_steps q)
             (substitute f (fold_left (substitute f) (between p q) a) q
              ++ value f q
              ++ substitute f (fold_left (substitute f) (between p q) b) q))
  /\ (forall (f : fields) (a b : string),
         transcript_text f = a ++ "[MEETING_DATE]" ++ b ->
         char_in "["%char a = false ->
         char_in "["%char b = false ->
         char_in "["%char (meeting_date f) = false ->
         substituted f MEETING_TRANSCRIPT_TEXT = a ++ meeting_date f ++ b).
Proof.
  split; [| split; [reflexivity |]; split; [exact render_layout |];
            split; [exact quoted_token_replaced
                   | exact transcript_quoting_date]].
  intros s Hv f. rewrite (displayed_rendered s Hv). fold f.
  split; [apply render_fold |]. rewrite render_layout.
  split; [reflexivity |]. split.
  - intros p q a b Hin Hval.
    rewrite <- (quoted_token_replaced f p q a b Hin Hval).
    apply layout_occurs.
  - intros a b Ht Ha Hb Hd.
    rewrite layout_unfold, (transcript_quoting_date f a b Ht Ha Hb Hd).
    set (h := substituted f).
    exists (seg0 ++ h MEETING_BODY ++ seg1 ++ h MEETING_DATE),
           (h MEETING_BODY ++ seg4 ++ h MEETING_DATE ++ seg5
            ++ h REPORT_TYPE ++ seg6 ++ h SPECIFIC_TOPIC ++ seg7
            ++ h OPTIONAL_SUPPORTING_DOCS ++ seg8 ++ h STYLE_GUIDELINES
            ++ seg9 ++ h SPECIFIC_TOPIC ++ seg10 ++ h REPORT_TYPE ++ seg11).
    rewrite !append_assoc. reflexivity.
Qed.

Lemma later_replacements_witness :
  exists pre post,
    displayed council_quoting_date
    = pre ++ seg2 ++ ("See " ++ "2024-05-01" ++ " minutes") ++ seg3 ++ post.
Proof.
  assert (validate (gather council_quoting_date) = None) as Hv
    by (vm_compute; reflexivity).
  destruct (proj1 later_replacements_rescan_earlier_values
              council_quoting_date Hv) as (_ & _ & _ & H).
  apply (H "See " " minutes"); vm_compute; reflexivity.
Defined.

(** * The fall-backs of the conditional and the optional fields *)

Lemma substituted_no_bracket (f : fields) (p : placeholder) :
  char_in "["%char (value f p) = false -> substituted f p = value f p.
Proof. apply fold_substitute_no_bracket. Qed.

Lemma gather_comprehensive (s : App) (t : string) :
  report_type_var s = "Comprehensive" ->
  gather (set_topic_entry t s) = gather s
  /\ specific_topic (gather s) = "N/A".
Proof.
  intros Hr. unfold gather, set_topic_entry.
  cbn [transcript_text_area date_entry body_entry report_type_var topic_entry
       docs_text_area style_text_area specific_topic].
  rewrite Hr. split; reflexivity.
Qed.

(** C4: for a comprehensive report the topic entry is not looked at (the
    outcome of generating is the same whatever it holds), and both
    occurrences of the topic placeholder are rendered as N/A. *)
Theorem comprehensive_topic_rendered_na (s : App) :
  report_type_var s = "Comprehensive" ->
  (forall t : string,
      generate_prompt (set_topic_entry t s)
      = (set_topic_entry t (fst (generate_prompt s)),
         snd (generate_prompt s)))
  /\ (validate (gather s) = None ->
      displayed s = layout (substituted (gather s))
      /\ substituted (gather s) SPECIFIC_TOPIC = "N/A"
      /\ exists pre mid post,
           displayed s
           = pre ++ seg6 ++ "N/A" ++ seg7 ++ mid ++ seg9 ++ "N/A" ++ seg10
             ++ post).
Proof.
  intros Hr. split.
  - intros t. destruct (gather_comprehensive s t Hr) as [Hg _].
    rewrite !generate_prompt_eq, Hg.
    destruct (validate (gather s)); reflexivity.
  - intros Hv. destruct (gather_comprehensive s EmptyString Hr) as [_ Ht].
    assert (substituted (gather s) SPECIFIC_TOPIC = "N/A") as Hna.
    { rewrite substituted_no_bracket; cbn [value]; now rewrite Ht. }
    rewrite (displayed_rendered s Hv), render_layout.
    repeat split; [exact Hna |].
    rewrite layout_unfold, Hna.
    set (h := substituted (gather s)).
    exists (seg0 ++ h MEETING_BODY ++ seg1 ++ h MEETING_DATE ++ seg2
            ++ h MEETING_TRANSCRIPT_TEXT ++ seg3 ++ h MEETING_BODY ++ seg4
            ++ h MEETING_DATE ++ seg5 ++ h REPORT_TYPE),
           (h OPTIONAL_SUPPORTING_DOCS ++ seg8 ++ h STYLE_GUIDELINES),
           (h REPORT_TYPE ++ seg11).
    rewrite !append_assoc. reflexivity.
Qed.

Lemma comprehensive_topic_witness :
  generate_prompt (set_topic_entry "Budget" council)
  = (set_topic_entry "Budget" (fst (generate_prompt council)),
     snd (generate_prompt council))
  /\ displayed council = layout (substituted (gather council))
  /\ substituted (gather council) SPECIFIC_TOPIC = "N/A"
  /\ exists pre mid post,
       displayed council
       = pre ++ seg6 ++ "N/A" ++ seg7 ++ mid ++ seg9 ++ "N/A" ++ seg10
         ++ post.
Proof.
  destruct (comprehensive_topic_rendered_na council eq_refl) as [H1 H2].
  split; [apply H1 | apply H2; vm_compute; reflexivity].
Defined.

(** C5: when the supporting documents and the style guidelines are both
    empty once trimmed, both placeholders are rendered as the words
    None provided. *)
Theorem empty_optional_fields_rendered_none_provided (s : App) :
  strip (text_get (docs_text_area s)) = EmptyString ->
  strip (text_get (style_text_area s)) = EmptyString ->
  validate (gather s) = None ->
  displayed s = layout (substituted (gather s))
  /\ substituted (gather s) OPTIONAL_SUPPORTING_DOCS = "None provided."
  /\ substituted (gather s) STYLE_GUIDELINES = "None provided."
  /\ exists pre post,
       displayed s
       = pre ++ seg7 ++ "None provided." ++ seg8 ++ "None provided."
         ++ seg9 ++ post.
Proof.
  intros Hd Hs Hv.
  assert (supporting_docs (gather s) = "None provided.") as Hdocs
    by (unfold gather; cbn [supporting_docs]; now rewrite Hd).
  assert (style_guidelines (gather s) = "None provided.") as Hstyle
    by (unfold gather; cbn [style_guidelines]; now rewrite Hs).
  assert (substituted (gather s) OPTIONAL_SUPPORTING_DOCS = "None provided.")
    as H1 by (rewrite substituted_no_bracket; cbn [value]; now rewrite Hdocs).
  assert (substituted (gather s) STYLE_GUIDELINES = "None provided.")
    as H2 by (rewrite substituted_no_bracket; cbn [value]; now rewrite Hstyle).
  rewrite (displayed_rendered s Hv), render_layout.
  repeat split; [exact H1 | exact H2 |].
  rewrite layout_unfold, H1, H2.
  set (h := substituted (gather s)).
  exists (seg0 ++ h MEETING_BODY ++ seg1 ++ h MEETING_DATE ++ seg2
          ++ h MEETING_TRANSCRIPT_TEXT ++ seg3 ++ h MEETING_BODY ++ seg4
          ++ h MEETING_DATE ++ seg5 ++ h REPORT_TYPE ++ seg6
          ++ h SPECIFIC_TOPIC),
         (h SPECIFIC_TOPIC ++ seg10 ++ h REPORT_TYPE ++ seg11).
  rewrite !append_assoc. reflexivity.
Qed.

Lemma empty_optional_fields_witness :
  displayed council = layout (substituted (gather council))
  /\ substituted (gather council) OPTIONAL_SUPPORTING_DOCS = "None provided."
  /\ substituted (gather council) STYLE_GUIDELINES = "None provided."
  /\ exists pre post,
       displayed council
       = pre ++ seg7 ++ "None provided." ++ seg8 ++ "None provided."
         ++ seg9 ++ post.
Proof.
  apply (empty_optional_fields_rendered_none_provided council);
    vm_compute; reflexivity.
Defined.

(** * Trimming *)

Lemma all_space_append (a b : string) :
  all_space (a ++ b) = all_space a && all_space b.
Proof.
  induction a as [|c a IH]; simpl; [reflexivity |].
  now rewrite IH, andb_assoc.
Qed.

Lemma lstrip_all_space (s : string) :
  all_space s = true -> lstrip s = EmptyString.
Proof.
  induction s as [|c s IH]; simpl; [reflexivity |].
  intros H. apply andb_true_iff in H as [-> H]. now apply IH.
Qed.

Lemma lstrip_empty (s : string) :
  lstrip s = EmptyString -> all_space s = true.
Proof.
  induction s as [|c s IH]; simpl; [reflexivity |].
  destruct (isspace c); [exact IH | discriminate].
Qed.

Lemma lstrip_append (s r : string) :
  lstrip (s ++ r) = if all_space s then lstrip r else lstrip s ++ r.
Proof.
  induction s as [|c s IH]; simpl; [reflexivity |].
  destruct (isspace c); [exact IH | reflexivity].
Qed.

Lemma lstrip_head (s : string) :
  lstrip s = EmptyString
  \/ exists c t, lstrip s = String c t /\ isspace c = false.
Proof.
  induction s as [|c s IH]; simpl; [now left |].
  destruct (isspace c) eqn:E; [exact IH | right; eauto].
Qed.

Lemma rstrip_all_space (s : string) :
  all_space s = true -> rstrip s = EmptyString.
Proof.
  induction s as [|c s IH]; simpl; [reflexivity |].
  intros H. apply andb_true_iff in H as [-> H]. now rewrite IH.
Qed.

Lemma rstrip_empty (s : string) :
  rstrip s = EmptyString -> all_space s = true.
Proof.
  induction s as [|c s IH]; simpl; [reflexivity |].
  destruct (rstrip s); [| discriminate].
  destruct (isspace c); [intros _; now apply IH | discriminate].
Qed.

Lemma rstrip_append_space (s r : string) :
  all_space r = true -> rstrip (s ++ r) = rstrip s.
Proof.
  intros H. induction s as [|c s IH].
  - now apply rstrip_all_space.
  - change (String c s ++ r) with (String c (s ++ r)).
    cbn [rstrip]. now rewrite IH.
Qed.

(** Whitespace around a text does not show once it is trimmed. *)
Lemma strip_padded (x y : string) : padded x y -> strip y = strip x.
Proof.
  intros (l & r & Hl & Hr & ->). unfold strip.
  rewrite lstrip_append, Hl, lstrip_append.
  destruct (all_space x) eqn:E.
  - rewrite (lstrip_all_space r Hr), (lstrip_all_space x E). reflexivity.
  - now apply rstrip_append_space.
Qed.

Lemma strip_empty_iff (s : string) :
  strip s = EmptyString <-> all_space s = true.
Proof.
  unfold strip. split.
  - intros H. apply rstrip_empty in H.
    destruct (lstrip_head s) as [E | (c & t & E & Hc)].
    + now apply lstrip_empty.
    + rewrite E in H. simpl in H. now rewrite Hc in H.
  - intros H. now rewrite (lstrip_all_space s H).
Qed.

(** The final newline of a text area does not show either. *)
Lemma strip_text_get (w : Text) : strip (text_get w) = strip (text_content w).
Proof.
  apply strip_padded. exists EmptyString, nl. repeat split; reflexivity.
Qed.

Lemma padded_text_get (w w' : Text) :
  padded (text_content w) (text_content w') ->
  strip (text_get w') = strip (text_get w).
Proof.
  intros H. rewrite !strip_text_get. now apply strip_padded.
Qed.

Lemma gather_padded (s s' : App) : padded_inputs s s' -> gather s' = gather s.
Proof.
  intros (Ht & Hd & Hb & Hr & Hto & Hdo & Hs). unfold gather.
  rewrite (padded_text_get _ _ Ht), (padded_text_get _ _ Hdo),
    (padded_text_get _ _ Hs), (strip_padded _ _ Hd), (strip_padded _ _ Hb),
    (strip_padded _ _ Hto), Hr.
  reflexivity.
Qed.

(** X1: whitespace before and after the content of the inputs makes no
    difference: the same values are gathered, the same messages shown and,
    when a prompt is rendered, the same prompt displayed. *)
Theorem surrounding_whitespace_ignored (s s' : App) :
  padded_inputs s s' ->
  gather s' = gather s
  /\ snd (generate_prompt s') = snd (generate_prompt s)
  /\ (validate (gather s) = None -> displayed s' = displayed s).
Proof.
  intros H. pose proof (gather_padded s s' H) as Hg.
  split; [exact Hg |]. split.
  - rewrite !generate_prompt_eq, Hg.
    destruct (validate (gather s)); reflexivity.
  - intros Hv. rewrite (displayed_rendered s Hv).
    rewrite <- Hg in Hv. rewrite (displayed_rendered s' Hv). now rewrite Hg.
Qed.

Lemma surrounding_whitespace_witness :
  gather council_zoning_padded = gather council_zoning
  /\ snd (generate_prompt council_zoning_padded)
     = snd (generate_prompt council_zoning)
  /\ displayed council_zoning_padded = displayed council_zoning.
Proof.
  assert (padded_inputs council_zoning council_zoning_padded) as H.
  { repeat split.
    - exists nl, (nl ++ nl). repeat split; reflexivity.
    - exists " ", EmptyString. repeat split; reflexivity.
    - exists EmptyString, " ". repeat split; reflexivity.
    - exists " ", " ". repeat split; reflexivity.
    - exists " ", EmptyString. repeat split; reflexivity.
    - exists EmptyString, nl. repeat split; reflexivity. }
  destruct (surrounding_whitespace_ignored council_zoning
              council_zoning_padded H) as (H1 & H2 & H3).
  split; [exact H1 |]. split; [exact H2 |].
  apply H3. vm_compute. reflexivity.
Defined.

(** * Which forms are rendered *)

Lemma truthy_strip (x : string) : truthy (strip x) = negb (all_space x).
Proof.
  destruct (all_space x) eqn:E.
  - apply strip_empty_iff in E. now rewrite E.
  - destruct (strip x) eqn:Es; [| reflexivity].
    apply strip_empty_iff in Es. congruence.
Qed.

Lemma truthy_strip_text_get (w : Text) :
  truthy (strip (text_get w)) = negb (all_space (text_content w)).
Proof. now rewrite strip_text_get, truthy_strip. Qed.

(** The validation in terms of what the widgets hold. *)
Lemma validate_gather (s : App) :
  validate (gather s)
  = if all_space (text_content (transcript_text_area s)) then
      Some "Meeting Transcript text cannot be empty."
    else if all_space (date_entry s) then
      Some "Meeting Date cannot be empty."
    else if all_space (body_entry s) then
      Some "Meeting Body cannot be empty."
    else if (report_type_var s =? "Topic-Specific")%string
            && all_space (topic_entry s) then
      Some "Specific Topic cannot be empty when Report Type is 'Topic-Specific'."
    else None.
Proof.
  unfold validate, gather.
  cbn [transcript_text meeting_date meeting_body report_type specific_topic].
  rewrite truthy_strip_text_get, !truthy_strip, !negb_involutive.
  destruct (all_space (text_content (transcript_text_area s))); [reflexivity |].
  destruct (all_space (date_entry s)); [reflexivity |].
  destruct (all_space (body_entry s)); [reflexivity |].
  destruct (report_type_var s =? "Topic-Specific")%string; [| reflexivity].
  cbn [andb]. now rewrite truthy_strip, negb_involutive.
Qed.

(** X2: a prompt is rendered exactly when the transcript, the date and the
    body each hold a character that is not whitespace and, for a
    topic-specific report, the topic does too.  Then no message is shown,
    the output area holds the rendered prompt and is disabled, and every
    input is left as it was. *)
Theorem generate_prompt_renders_iff (s : App) :
  let filled :=
    all_space (text_content (transcript_text_area s)) = false
    /\ all_space (date_entry s) = false
    /\ all_space (body_entry s) = false
    /\ (report_type_var s = "Topic-Specific" ->
        all_space (topic_entry s) = false) in
  (filled <-> snd (generate_prompt s) = [])
  /\ (filled ->
      generate_prompt s
      = (set_output_text_area
           (mkText (render PROMPT_TEMPLATE (gather s)) DISABLED) s, [])).
Proof.
  intros filled.
  assert (filled <-> validate (gather s) = None) as Hiff.
  { unfold filled. rewrite validate_gather.
    destruct (all_space (text_content (transcript_text_area s)));
      [split; [intros (? & _); discriminate | discriminate] |].
    destruct (all_space (date_entry s));
      [split; [intros (_ & ? & _); discriminate | discriminate] |].
    destruct (all_space (body_entry s));
      [split; [intros (_ & _ & ? & _); discriminate | discriminate] |].
    destruct (report_type_var s =? "Topic-Specific")%string eqn:Er.
    - apply String.eqb_eq in Er. cbn [andb].
      destruct (all_space (topic_entry s)).
      + split; [intros (_ & _ & _ & H); now apply H in Er | discriminate].
      + split; [reflexivity | now repeat split].
    - apply String.eqb_neq in Er. cbn [andb].
      split; [reflexivity | intros _; repeat split; intros; congruence]. }
  split.
  - rewrite Hiff, generate_prompt_eq.
    destruct (validate (gather s)); cbn [snd]; split; congruence.
  - intros H. apply Hiff in H. now rewrite generate_prompt_eq, H.
Qed.

Lemma generate_prompt_renders_witness :
  generate_prompt council_zoning
  = (set_output_text_area
       (mkText (render PROMPT_TEMPLATE (gather council_zoning)) DISABLED)
       council_zoning, []).
Proof.
  apply (proj2 (generate_prompt_renders_iff council_zoning)).
  repeat split; reflexivity.
Defined.

(** X3: when several required fields are missing, one error is shown, for
    the first of them in the order transcript, date, body, topic; a field
    holding nothing but whitespace counts as missing. *)
Theorem validation_reports_first_missing_field (s : App) :
  let error msg := (s, [showerror "Input Error" msg]) in
  (all_space (text_content (transcript_text_area s)) = true ->
   generate_prompt s = error "Meeting Transcript text cannot be empty.")
  /\ (all_space (text_content (transcript_text_area s)) = false ->
      all_space (date_entry s) = true ->
      generate_prompt s = error "Meeting Date cannot be empty.")
  /\ (all_space (text_content (transcript_text_area s)) = false ->
      all_space (date_entry s) = false ->
      all_space (body_entry s) = true ->
      generate_prompt s = error "Meeting Body cannot be empty.")
  /\ (all_space (text_content (transcript_text_area s)) = false ->
      all_space (date_entry s) = false ->
      all_space (body_entry s) = false ->
      report_type_var s = "Topic-Specific" ->
      all_space (topic_entry s) = true ->
      generate_prompt s
      = error
          "Specific Topic cannot be empty when Report Type is 'Topic-Specific'.").
Proof.
  intros error. unfold error. rewrite generate_prompt_eq, validate_gather.
  split; [| split; [| split]].
  - now intros ->.
  - now intros -> ->.
  - now intros -> -> ->.
  - intros -> -> -> -> ->. reflexivity.
Qed.

Lemma validation_reports_first_missing_witness :
  generate_prompt spaces_only
  = (spaces_only,
     [showerror "Input Error" "Meeting Transcript text cannot be empty."]).
Proof.
  apply (proj1 (validation_reports_first_missing_field spaces_only)).
  reflexivity.
Defined.

(** * More on the rendered document *)

(** X4: for a topic-specific report that is rendered, both places of the
    topic placeholder hold the trimmed topic, when it has no opening
    bracket. *)
Theorem topic_specific_topic_rendered (s : App) :
  report_type_var s = "Topic-Specific" ->
  validate (gather s) = None ->
  char_in "["%char (strip (topic_entry s)) = false ->
  strip (topic_entry s) <> EmptyString
  /\ exists pre mid post,
       displayed s
       = pre ++ seg6 ++ strip (topic_entry s) ++ seg7 ++ mid ++ seg9
         ++ strip (topic_entry s) ++ seg10 ++ post.
Proof.
  intros Hr Hv Hb.
  assert (specific_topic (gather s) = strip (topic_entry s)) as Ht
    by (unfold gather; cbn [specific_topic]; now rewrite Hr).
  split.
  - intros E. apply strip_empty_iff in E.
    rewrite validate_gather, Hr, E in Hv.
    destruct (all_space (text_content (transcript_text_area s)));
      [discriminate |].
    destruct (all_space (date_entry s)); [discriminate |].
    destruct (all_space (body_entry s)); [discriminate |].
    discriminate.
  - assert (substituted (gather s) SPECIFIC_TOPIC = strip (topic_entry s))
      as Hsub by (rewrite substituted_no_bracket; cbn [value]; now rewrite Ht).
    rewrite (displayed_rendered s Hv), render_layout, layout_unfold, Hsub.
    set (h := substituted (gather s)).
    exists (seg0 ++ h MEETING_BODY ++ seg1 ++ h MEETING_DATE ++ seg2
            ++ h MEETING_TRANSCRIPT_TEXT ++ seg3 ++ h MEETING_BODY ++ seg4
            ++ h MEETING_DATE ++ seg5 ++ h REPORT_TYPE),
           (h OPTIONAL_SUPPORTING_DOCS ++ seg8 ++ h STYLE_GUIDELINES),
           (h REPORT_TYPE ++ seg11).
    rewrite !append_assoc. reflexivity.
Qed.

Lemma topic_specific_topic_witness :
  strip (topic_entry council_zoning_padded) <> EmptyString
  /\ exists pre mid post,
       displayed council_zoning_padded
       = pre ++ seg6 ++ strip (topic_entry council_zoning_padded) ++ seg7
         ++ mid ++ seg9 ++ strip (topic_entry council_zoning_padded)
         ++ seg10 ++ post.
Proof.
  apply (topic_specific_topic_rendered council_zoning_padded);
    vm_compute; reflexivity.
Defined.

(** X5: the style guidelines are replaced last, so whatever they hold, a
    token included, stands in the prompt as it was gathered. *)
Theorem style_guidelines_rendered_verbatim (s : App) :
  validate (gather s) = None ->
  exists pre post,
    displayed s = pre ++ seg8 ++ style_guidelines (gather s) ++ seg9 ++ post.
Proof.
  intros Hv.
  rewrite (displayed_rendered s Hv), render_layout, layout_unfold.
  set (h := substituted (gather s)).
  change (h STYLE_GUIDELINES) with (style_guidelines (gather s)).
  exists (seg0 ++ h MEETING_BODY ++ seg1 ++ h MEETING_DATE ++ seg2
          ++ h MEETING_TRANSCRIPT_TEXT ++ seg3 ++ h MEETING_BODY ++ seg4
          ++ h MEETING_DATE ++ seg5 ++ h REPORT_TYPE ++ seg6
          ++ h SPECIFIC_TOPIC ++ seg7 ++ h OPTIONAL_SUPPORTING_DOCS),
         (h SPECIFIC_TOPIC ++ seg10 ++ h REPORT_TYPE ++ seg11).
  rewrite !append_assoc. reflexivity.
Qed.

Lemma style_guidelines_verbatim_witness :
  exists pre post,
    displayed council_quoting_in_style
    = pre ++ seg8 ++ style_guidelines (gather council_quoting_in_style)
      ++ seg9 ++ post.
Proof.
  apply (style_guidelines_rendered_verbatim council_quoting_in_style).
  vm_compute. reflexivity.
Defined.

(** X6: when no value contains a token, the order of the replacements does
    not matter: any run of steps in which every placeholder has its turn,
    in any order and however often, turns the template into the same
    document, the template with each placeholder replaced by its value. *)
Theorem replacement_order_irrelevant_when_token_free
    (f : fields) (l : list placeholder) :
  token_free f = true ->
  (forall p, In p l) ->
  fold_left (substitute f) l PROMPT_TEMPLATE = layout (value f)
  /\ render PROMPT_TEMPLATE f = layout (value f).
Proof.
  intros Hf Hl.
  assert (forall l', (forall p, In p l') ->
            fold_left (substitute f) l' PROMPT_TEMPLATE = layout (value f))
    as Hany.
  { intros l' Hl'. rewrite prompt_template_fill. unfold layout, fill.
    rewrite fold_substitute_weave
      by (apply well_delimited_all;
          [apply prompt_template_well_delimited
          | intros; apply in_substitution_order]).
    f_equal. unfold map_holes. rewrite map_map.
    apply map_ext. intros [p s]. cbn [fst snd]. f_equal.
    rewrite fold_substitute_token_after by apply Hl'.
    apply fold_substitute_absent. intros q _. now apply token_free_inv. }
  split.
  - now apply Hany.
  - rewrite render_fold. apply Hany, in_substitution_order.
Qed.

Lemma replacement_order_witness :
  fold_left (substitute plain_fields) shuffled_order PROMPT_TEMPLATE
  = layout (value plain_fields)
  /\ render PROMPT_TEMPLATE plain_fields = layout (value plain_fields).
Proof.
  apply (replacement_order_irrelevant_when_token_free plain_fields
           shuffled_order).
  - reflexivity.
  - intros p. destruct p; simpl; tauto.
Defined.

(** X7: a template without any token is rendered as it is. *)
Theorem render_template_without_tokens (template : string) (f : fields) :
  (forall q, contains (token q) template = false) ->
  render template f = template.
Proof.
  intros H. rewrite render_fold. apply fold_substitute_absent.
  intros q _. apply H.
Qed.

Lemma render_template_without_tokens_witness :
  render seg0 plain_fields = seg0.
Proof.
  apply (render_template_without_tokens seg0 plain_fields).
  intros q. destruct q; vm_compute; reflexivity.
Defined.

(** * More on loading files *)

(** X8: a dialog that was cancelled changes nothing and shows nothing. *)
Theorem cancelled_dialog_changes_nothing (fs : filesystem) (s : App) :
  load_transcript_file fs EmptyString s = (s, [])
  /\ load_style_file fs EmptyString s = (s, [])
  /\ load_and_append_docs_files fs [] s = (s, []).
Proof.
  unfold load_transcript_file, load_style_file, _load_file_content.
  cbn [truthy negb]. now rewrite set_transcript_same, set_style_same.
Qed.

(** X9: a file that can be read replaces what its text area held, whatever
    that was and even if the area was disabled; nothing else changes, the
    message names the file without its directories, and the transcript
    gathered afterwards is the trimmed content of the file. *)
Theorem single_file_load_replaces_content
    (fs : filesystem) (filepath content : string) (s : App) :
  filepath <> EmptyString ->
  fs filepath = ReadOk content ->
  let loaded :=
    [showinfo "File Loaded"
       ("Successfully loaded content from:" ++ nl ++ basename filepath)] in
  load_transcript_file fs filepath s
  = (set_transcript_text_area (mkText content NORMAL) s, loaded)
  /\ load_style_file fs filepath s
     = (set_style_text_area (mkText content NORMAL) s, loaded)
  /\ transcript_text (gather (fst (load_transcript_file fs filepath s)))
     = strip content.
Proof.
  intros Hne Hfs loaded.
  assert (_load_file_content fs filepath (transcript_text_area s)
          = (mkText content NORMAL, loaded)
          /\ _load_file_content fs filepath (style_text_area s)
             = (mkText content NORMAL, loaded)) as [Ht Hs].
  { unfold _load_file_content.
    destruct filepath as [|c p]; [congruence |].
    cbn [truthy negb]. rewrite Hfs.
    unfold text_insert_start, text_delete_all, text_config.
    cbn [text_state text_content]. now rewrite append_nil_r. }
  unfold load_transcript_file, load_style_file. rewrite Ht, Hs.
  repeat split. cbn [fst gather transcript_text].
  apply strip_text_get.
Qed.

Lemma single_file_load_replaces_witness :
  load_transcript_file two_files "/docs/A.txt" council_zoning_padded
  = (set_transcript_text_area (mkText "X" NORMAL) council_zoning_padded,
     [showinfo "File Loaded"
        ("Successfully loaded content from:" ++ nl ++ "A.txt")])
  /\ load_style_file two_files "/docs/A.txt" council_zoning_padded
     = (set_style_text_area (mkText "X" NORMAL) council_zoning_padded,
        [showinfo "File Loaded"
           ("Successfully loaded content from:" ++ nl ++ "A.txt")])
  /\ transcript_text
       (gather (fst (load_transcript_file two_files "/docs/A.txt"
                       council_zoning_padded)))
     = strip "X".
Proof.
  apply (single_file_load_replaces_content two_files "/docs/A.txt" "X"
           council_zoning_padded).
  - discriminate.
  - reflexivity.
Defined.

Lemma readable_app (fs : filesystem) (l1 l2 : list string) :
  readable fs (l1 ++ l2) = (readable fs l1 ++ readable fs l2)%list.
Proof.
  induction l1 as [|p l1 IH]; [reflexivity |].
  cbn [readable app]. destruct (fs p); cbn [app]; now rewrite IH.
Qed.

Lemma assemble_app (a b : list (string * string)) :
  assemble (a ++ b) = assemble a ++ assemble b.
Proof.
  induction a as [|[p c] a IH]; [reflexivity |].
  cbn [assemble app]. now rewrite IH, !append_assoc.
Qed.

Lemma set_docs_same (s : App) : set_docs_text_area (docs_text_area s) s = s.
Proof. destruct s; reflexivity. Qed.

(** X10: appending one batch and then another leaves the form as appending
    the two batches as one does. *)
Theorem append_batches_compose (fs : filesystem) (l1 l2 : list string)
    (s : App) :
  fst (load_and_append_docs_files fs l2
         (fst (load_and_append_docs_files fs l1 s)))
  = fst (load_and_append_docs_files fs (l1 ++ l2) s).
Proof.
  destruct l1 as [|p1 l1]; [reflexivity |].
  destruct l2 as [|p2 l2]; [now rewrite app_nil_r |].
  rewrite (load_and_append_docs_files_spec fs (p1 :: l1) s) by discriminate.
  rewrite (load_and_append_docs_files_spec fs ((p1 :: l1) ++ p2 :: l2) s)
    by discriminate.
  cbn [fst].
  rewrite load_and_append_docs_files_spec by discriminate.
  cbn [fst]. unfold set_docs_text_area.
  cbn [transcript_text_area date_entry body_entry report_type_var topic_entry
       docs_text_area style_text_area output_text_area text_content].
  now rewrite readable_app, assemble_app, append_assoc.
Qed.

Lemma readable_none (fs : filesystem) (filepaths : list string) :
  (forall p, In p filepaths -> exists e, fs p = ReadError e) ->
  readable fs filepaths = []
  /\ List.length (warnings fs filepaths) = List.length filepaths
  /\ existsb is_showinfo (warnings fs filepaths) = false.
Proof.
  induction filepaths as [|p l IH]; intros H; [now repeat split |].
  destruct (H p (or_introl eq_refl)) as [e He].
  destruct IH as (H1 & H2 & H3); [intros q Hq; apply H; now right |].
  cbn [readable warnings]. rewrite He.
  cbn [List.length existsb skip_warning is_showinfo orb].
  now rewrite H1, H2, H3.
Qed.

(** X11: appending never takes text away: the text area holds what it held,
    followed by what was added, and nothing else in the form changes.  When
    none of the selected files can be read, nothing is added, every file
    gets its warning and no summary is shown. *)
Theorem append_keeps_earlier_text (fs : filesystem) (filepaths : list string)
    (s : App) :
  (exists added st,
      fst (load_and_append_docs_files fs filepaths s)
      = set_docs_text_area
          (mkText (text_content (docs_text_area s) ++ added) st) s)
  /\ ((forall p, In p filepaths -> exists e, fs p = ReadError e) ->
      text_content
        (docs_text_area (fst (load_and_append_docs_files fs filepaths s)))
      = text_content (docs_text_area s)
      /\ snd (load_and_append_docs_files fs filepaths s)
         = warnings fs filepaths
      /\ List.length (warnings fs filepaths) = List.length filepaths
      /\ existsb is_showinfo (snd (load_and_append_docs_files fs filepaths s))
         = false).
Proof.
  destruct filepaths as [|p l].
  - split.
    + exists EmptyString, (text_state (docs_text_area s)).
      cbn [load_and_append_docs_files fst]. rewrite append_nil_r.
      destruct s as [? ? ? ? ? [? ?] ? ?]; reflexivity.
    + intros _. now repeat split.
  - rewrite load_and_append_docs_files_spec by discriminate. split.
    + now exists (assemble (readable fs (p :: l))), NORMAL.
    + intros H. destruct (readable_none fs (p :: l) H) as (H1 & H2 & H3).
      rewrite H1. cbn [fst snd set_docs_text_area docs_text_area text_content
                       assemble List.length Nat.ltb Nat.leb].
      rewrite append_nil_r, app_nil_r. now repeat split.
Qed.

Lemma append_keeps_earlier_text_witness :
  text_content
    (docs_text_area
       (fst (load_and_append_docs_files no_files ["a.txt"; "b.md"]
               council_zoning_padded)))
  = text_content (docs_text_area council_zoning_padded)
  /\ snd (load_and_append_docs_files no_files ["a.txt"; "b.md"]
            council_zoning_padded)
     = warnings no_files ["a.txt"; "b.md"]
  /\ List.length (warnings no_files ["a.txt"; "b.md"]) = 2
  /\ existsb is_showinfo
       (snd (load_and_append_docs_files no_files ["a.txt"; "b.md"]
               council_zoning_padded))
     = false.
Proof.
  apply (proj2 (append_keeps_earlier_text no_files ["a.txt"; "b.md"]
                  council_zoning_padded)).
  intros p _. now exists "[Errno 13] Permission denied".
Defined.

(** X12: the name put in a separator and in the message of a load is the
    path without its directories: it has no slash, and the path is this
    name after a part that is empty or ends with a slash. *)
Theorem basename_is_last_component (p : string) :
  char_in "/"%char (basename p) = false
  /\ exists dir,
       p = dir ++ basename p
       /\ (dir = EmptyString \/ last_char dir = Some "/"%char).
Proof.
  induction p as [|c p (IH1 & dir & IH2 & IH3)].
  - split; [reflexivity |]. exists EmptyString. now split; [| left].
  - cbn [basename]. destruct (char_in "/"%char p) eqn:Hp.
    + split; [exact IH1 |]. exists (String c dir). split.
      * cbn [append]. now rewrite <- IH2.
      * right. destruct IH3 as [-> | Hl].
        -- cbn [append] in IH2. rewrite <- IH2 in IH1. congruence.
        -- cbn [last_char]. now rewrite Hl.
    + destruct (Ascii.eqb c "/"%char) eqn:Hc.
      * apply Ascii.eqb_eq in Hc. subst c. split; [exact Hp |].
        exists "/". split; [reflexivity | now right].
      * split; [cbn [char_in]; now rewrite Ascii.eqb_sym, Hc, Hp |].
        exists EmptyString. split; [reflexivity | now left].
Qed.

(** * The topic entry and the forms the user can reach *)

Lemma update_topic_entry_state_idempotent (g : Form) :
  update_topic_entry_state (update_topic_entry_state g)
  = update_topic_entry_state g.
Proof.
  unfold update_topic_entry_state, entry_delete_all.
  destruct (report_type_var (widgets g) =? "Topic-Specific")%string eqn:E.
  - cbn [widgets]. now rewrite E.
  - destruct (topic_entry_state g); cbn [widgets set_topic_entry
      report_type_var topic_entry_state]; now rewrite E.
Qed.

(** X13: choosing Comprehensive while the topic entry is enabled empties and
    disables it; choosing Topic-Specific again enables it, still empty: the
    topic typed before is lost, and nothing else in the form changes.
    Running the callback a second time changes nothing. *)
Theorem leaving_topic_specific_clears_topic (fs : filesystem) (g : Form) :
  topic_entry_state g = NORMAL ->
  let g1 := fst (handle fs (SelectReportType comprehensive_radio) g) in
  let g2 := fst (handle fs (SelectReportType topic_specific_radio) g1) in
  g1 = mkForm (set_report_type_var "Comprehensive"
                 (set_topic_entry EmptyString (widgets g))) DISABLED
  /\ g2 = mkForm (set_report_type_var "Topic-Specific"
                    (set_topic_entry EmptyString (widgets g))) NORMAL
  /\ update_topic_entry_state g1 = g1
  /\ update_topic_entry_state g2 = g2.
Proof.
  intros Hst g1 g2.
  assert (g1 = mkForm (set_report_type_var "Comprehensive"
                         (set_topic_entry EmptyString (widgets g))) DISABLED)
    as H1.
  { unfold g1, handle, update_topic_entry_state, entry_delete_all.
    cbn [fst widgets set_report_type_var report_type_var radio_value
         topic_entry_state]. rewrite Hst. reflexivity. }
  assert (g2 = mkForm (set_report_type_var "Topic-Specific"
                         (set_topic_entry EmptyString (widgets g))) NORMAL)
    as H2 by (unfold g2; rewrite H1; reflexivity).
  split; [exact H1 |]. split; [exact H2 |]. split.
  - rewrite H1. reflexivity.
  - rewrite H2. reflexivity.
Qed.

Lemma leaving_topic_specific_witness :
  fst (handle no_files (SelectReportType comprehensive_radio) typed_topic)
  = mkForm (set_report_type_var "Comprehensive"
              (set_topic_entry EmptyString (widgets typed_topic))) DISABLED
  /\ fst (handle no_files (SelectReportType topic_specific_radio)
            (fst (handle no_files (SelectReportType comprehensive_radio)
                    typed_topic)))
     = mkForm (set_report_type_var "Topic-Specific"
                 (set_topic_entry EmptyString (widgets typed_topic))) NORMAL
  /\ update_topic_entry_state
       (fst (handle no_files (SelectReportType comprehensive_radio)
               typed_topic))
     = fst (handle no_files (SelectReportType comprehensive_radio)
              typed_topic)
  /\ update_topic_entry_state
       (fst (handle no_files (SelectReportType topic_specific_radio)
               (fst (handle no_files (SelectReportType comprehensive_radio)
                       typed_topic))))
     = fst (handle no_files (SelectReportType topic_specific_radio)
              (fst (handle no_files (SelectReportType comprehensive_radio)
                      typed_topic))).
Proof.
  apply (leaving_topic_specific_clears_topic no_files typed_topic).
  reflexivity.
Defined.

(** The loads and the generation change one text area each. *)
Lemma handle_frame (fs : filesystem) (e : event) (g : Form) :
  match e with
  | SelectReportType _ | EditTopic _ | EditOutput _ | PressGenerate => True
  | _ =>
      topic_entry_state (fst (handle fs e g)) = topic_entry_state g
      /\ report_type_var (widgets (fst (handle fs e g)))
         = report_type_var (widgets g)
      /\ topic_entry (widgets (fst (handle fs e g))) = topic_entry (widgets g)
      /\ output_text_area (widgets (fst (handle fs e g)))
         = output_text_area (widgets g)
  end.
Proof.
  destruct e; try exact I; cbn [handle on_widgets fst widgets
                                 topic_entry_state];
    try (now repeat split).
  - unfold load_transcript_file.
    destruct (_load_file_content fs filepath
                (transcript_text_area (widgets g))). now repeat split.
  - destruct filepaths as [|p l]; [now repeat split |].
    rewrite load_and_append_docs_files_spec by discriminate.
    now repeat split.
  - unfold load_style_file.
    destruct (_load_file_content fs filepath (style_text_area (widgets g))).
    now repeat split.
Qed.

(** What holds of every form the user can reach. *)
Lemma reachable_invariant (g : Form) :
  reachable g ->
  (report_type_var (widgets g) = "Comprehensive"
   \/ report_type_var (widgets g) = "Topic-Specific")
  /\ (topic_entry_state g = NORMAL
      <-> report_type_var (widgets g) = "Topic-Specific")
  /\ (topic_entry_state g = DISABLED -> topic_entry (widgets g) = EmptyString)
  /\ text_state (output_text_area (widgets g)) = DISABLED
  /\ (text_content (output_text_area (widgets g)) = EmptyString
      \/ exists f, validate f = None
                   /\ text_content (output_text_area (widgets g))
                      = render PROMPT_TEMPLATE f).
Proof.
  induction 1 as [|fs e g Hg IH].
  - repeat split; try (now left); try discriminate; reflexivity.
  - pose proof (handle_frame fs e g) as Hframe.
    destruct e;
      try (destruct Hframe as (-> & -> & -> & ->); exact IH);
      clear Hframe; destruct IH as (Hrt & Hst & Hempty & Hout & Hdoc).
    + (* EditTopic *)
      cbn [handle]. destruct (topic_entry_state g) eqn:E.
      * cbn [on_widgets fst widgets topic_entry_state set_topic_entry
             report_type_var output_text_area]. rewrite E.
        split; [exact Hrt |]. split; [exact Hst |].
        split; [discriminate |]. split; [exact Hout | exact Hdoc].
      * cbn [fst]. rewrite E.
        split; [exact Hrt |]. split; [exact Hst |].
        split; [exact Hempty |]. split; [exact Hout | exact Hdoc].
    + (* EditOutput *)
      cbn [handle on_widgets fst widgets topic_entry_state].
      unfold text_user_edit. rewrite Hout, set_output_same.
      split; [exact Hrt |]. split; [exact Hst |].
      split; [exact Hempty |]. split; [exact Hout | exact Hdoc].
    + (* SelectReportType *)
      cbn [handle fst]. unfold update_topic_entry_state, entry_delete_all.
      destruct r; cbn [radio_value widgets set_report_type_var
                       report_type_var topic_entry_state].
      * change ("Comprehensive" =? "Topic-Specific")%string with false.
        cbv iota.
        assert (forall g' : Form,
                   output_text_area (widgets g')
                   = output_text_area (widgets g) ->
                   topic_entry (widgets g') = EmptyString ->
                   report_type_var (widgets g') = "Comprehensive" ->
                   topic_entry_state g' = DISABLED ->
                   (report_type_var (widgets g') = "Comprehensive"
                    \/ report_type_var (widgets g') = "Topic-Specific")
                   /\ (topic_entry_state g' = NORMAL
                       <-> report_type_var (widgets g') = "Topic-Specific")
                   /\ (topic_entry_state g' = DISABLED ->
                       topic_entry (widgets g') = EmptyString)
                   /\ text_state (output_text_area (widgets g')) = DISABLED
                   /\ (text_content (output_text_area (widgets g'))
                       = EmptyString
                       \/ exists f,
                            validate f = None
                            /\ text_content (output_text_area (widgets g'))
                               = render PROMPT_TEMPLATE f)) as Hinv.
        { intros g' Ho Ht Hr Hs. rewrite Ho, Ht, Hr, Hs.
          split; [now left |]. split; [split; discriminate |].
          split; [reflexivity |]. split; [exact Hout | exact Hdoc]. }
        destruct (topic_entry_state g) eqn:E; apply Hinv; try reflexivity.
        cbn [widgets set_report_type_var topic_entry]. now apply Hempty.
      * change ("Topic-Specific" =? "Topic-Specific")%string with true.
        cbv iota.
        cbn [widgets topic_entry_state report_type_var output_text_area
             set_report_type_var topic_entry].
        split; [now right |]. split; [now split |].
        split; [discriminate |]. split; [exact Hout | exact Hdoc].
    + (* PressGenerate *)
      cbn [handle on_widgets fst widgets topic_entry_state].
      rewrite generate_prompt_eq.
      destruct (validate (gather (widgets g))) eqn:Hv; cbn [fst].
      * split; [exact Hrt |]. split; [exact Hst |].
        split; [exact Hempty |]. split; [exact Hout | exact Hdoc].
      * cbn [set_output_text_area report_type_var topic_entry
             output_text_area text_state text_content].
        split; [exact Hrt |]. split; [exact Hst |].
        split; [exact Hempty |]. split; [reflexivity |].
        right. now exists (gather (widgets g)).
Qed.

(** X14: in every form the user can reach, the report type is one of the two
    of the radio buttons, the topic entry is enabled exactly when the type
    is Topic-Specific, and a disabled topic entry is empty: for a
    comprehensive report there is no topic text that rendering could
    drop. *)
Theorem topic_entry_follows_report_type (g : Form) :
  reachable g ->
  (report_type_var (widgets g) = "Comprehensive"
   \/ report_type_var (widgets g) = "Topic-Specific")
  /\ (topic_entry_state g = NORMAL
      <-> report_type_var (widgets g) = "Topic-Specific")
  /\ (report_type_var (widgets g) = "Comprehensive" ->
      topic_entry_state g = DISABLED
      /\ topic_entry (widgets g) = EmptyString).
Proof.
  intros H. destruct (reachable_invariant g H) as (H1 & H2 & H3 & _).
  repeat split; try assumption; try apply H2.
  - destruct (topic_entry_state g) eqn:E; [| reflexivity].
    destruct H2 as [H2 _]. rewrite (H2 eq_refl) in H0. discriminate.
  - apply H3. destruct (topic_entry_state g) eqn:E; [| reflexivity].
    destruct H2 as [H2 _]. rewrite (H2 eq_refl) in H0. discriminate.
Qed.

Lemma topic_entry_follows_report_type_witness :
  (report_type_var (widgets typed_topic) = "Comprehensive"
   \/ report_type_var (widgets typed_topic) = "Topic-Specific")
  /\ (topic_entry_state typed_topic = NORMAL
      <-> report_type_var (widgets typed_topic) = "Topic-Specific")
  /\ (report_type_var (widgets typed_topic) = "Comprehensive" ->
      topic_entry_state typed_topic = DISABLED
      /\ topic_entry (widgets typed_topic) = EmptyString).
Proof.
  apply (topic_entry_follows_report_type typed_topic).
  unfold typed_topic. repeat constructor.
Defined.

(** X15: in every form the user can reach, the output area is disabled, so
    an edit of it changes nothing, and what it shows is nothing or a prompt
    rendered from values that passed the validation. *)
Theorem output_shows_only_rendered_prompts (g : Form) :
  reachable g ->
  text_state (output_text_area (widgets g)) = DISABLED
  /\ (forall fs text, handle fs (EditOutput text) g = (g, []))
  /\ (text_content (output_text_area (widgets g)) = EmptyString
      \/ exists f, validate f = None
                   /\ text_content (output_text_area (widgets g))
                      = layout (substituted f)).
Proof.
  intros H. destruct (reachable_invariant g H) as (_ & _ & _ & H4 & H5).
  split; [exact H4 |]. split.
  - intros fs text. cbn [handle on_widgets]. unfold text_user_edit.
    rewrite H4, set_output_same. now destruct g.
  - destruct H5 as [H5 | (f & Hv & H5)]; [now left | right].
    exists f. now rewrite <- render_layout.
Qed.

Lemma output_shows_only_rendered_witness :
  text_state
    (output_text_area
       (widgets (fst (handle no_files PressGenerate typed_topic))))
  = DISABLED
  /\ (forall fs text,
         handle fs (EditOutput text)
           (fst (handle no_files PressGenerate typed_topic))
         = (fst (handle no_files PressGenerate typed_topic), []))
  /\ (text_content
        (output_text_area
           (widgets (fst (handle no_files PressGenerate typed_topic))))
      = EmptyString
      \/ exists f,
           validate f = None
           /\ text_content
                (output_text_area
                   (widgets (fst (handle no_files PressGenerate typed_topic))))
              = layout (substituted f)).
Proof.
  apply (output_shows_only_rendered_prompts
           (fst (handle no_files PressGenerate typed_topic))).
  unfold typed_topic. repeat constructor.
Defined.

(** * The gathered values are trimmed *)

Lemma rstrip_cons_not_space (c : ascii) (t : string) :
  isspace c = false -> rstrip (String c t) = String c (rstrip t).
Proof. intros H. cbn [rstrip]. rewrite H. now destruct (rstrip t). Qed.

Lemma rstrip_idempotent (x : string) : rstrip (rstrip x) = rstrip x.
Proof.
  induction x as [|c x IH]; [reflexivity |].
  cbn [rstrip]. destruct (rstrip x) as [|d r] eqn:E.
  - destruct (isspace c) eqn:Hc; [reflexivity |].
    cbn [rstrip]. now rewrite Hc.
  - cbn [rstrip]. cbn [rstrip] in IH.
    destruct (match rstrip r with
              | EmptyString =>
                  if isspace d then EmptyString else String d EmptyString
              | String a s => String d (String a s)
              end); [discriminate | now rewrite IH].
Qed.

Lemma rstrip_last (x : string) (c : ascii) :
  last_char (rstrip x) = Some c -> isspace c = false.
Proof.
  induction x as [|d x IH]; [discriminate |].
  cbn [rstrip]. destruct (rstrip x) as [|e r] eqn:E.
  - destruct (isspace d) eqn:Hd; [discriminate |].
    cbn. intros H. now inversion H; subst.
  - cbn [last_char]. cbn [last_char] in IH.
    destruct (last_char r); exact IH.
Qed.

Lemma strip_trimmed (x : string) :
  strip (strip x) = strip x
  /\ (forall c, head_char (strip x) = Some c -> isspace c = false)
  /\ (forall c, last_char (strip x) = Some c -> isspace c = false).
Proof.
  unfold strip. split; [| split].
  - destruct (lstrip_head x) as [E | (c & t & E & Hc)]; rewrite E.
    + reflexivity.
    + rewrite (rstrip_cons_not_space c t Hc). cbn [lstrip]. rewrite Hc.
      rewrite <- (rstrip_cons_not_space c t Hc). apply rstrip_idempotent.
  - intros c. destruct (lstrip_head x) as [E | (d & t & E & Hd)]; rewrite E.
    + discriminate.
    + rewrite (rstrip_cons_not_space d t Hd). cbn.
      intros H. now inversion H; subst.
  - intros c. apply rstrip_last.
Qed.

(** X16: every value put into the prompt, the report type apart, is trimmed:
    it neither starts nor ends with whitespace, and trimming it again gives
    the same value. *)
Theorem gathered_values_are_trimmed (s : App) (p : placeholder) :
  p <> REPORT_TYPE ->
  let v := value (gather s) p in
  strip v = v
  /\ (forall c, head_char v = Some c -> isspace c = false)
  /\ (forall c, last_char v = Some c -> isspace c = false).
Proof.
  assert (forall v, v = "N/A" \/ v = "None provided." ->
            strip v = v
            /\ (forall c, head_char v = Some c -> isspace c = false)
            /\ (forall c, last_char v = Some c -> isspace c = false)) as Hfix.
  { intros v [-> | ->]; (split; [reflexivity |]);
      split; intros c H; inversion H; reflexivity. }
  intros Hp v. unfold v, gather.
  destruct p; try congruence; cbn [value transcript_text meeting_date
    meeting_body specific_topic supporting_docs style_guidelines];
    try apply strip_trimmed.
  - destruct (report_type_var s =? "Topic-Specific")%string;
      [apply strip_trimmed | apply Hfix; now left].
  - destruct (truthy (strip (text_get (docs_text_area s))));
      [apply strip_trimmed | apply Hfix; now right].
  - destruct (truthy (strip (text_get (style_text_area s))));
      [apply strip_trimmed | apply Hfix; now right].
Qed.

Lemma gathered_values_are_trimmed_witness :
  strip (value (gather council_zoning_padded) MEETING_TRANSCRIPT_TEXT)
  = value (gather council_zoning_padded) MEETING_TRANSCRIPT_TEXT
  /\ (forall c,
         head_char (value (gather council_zoning_padded)
                      MEETING_TRANSCRIPT_TEXT) = Some c ->
         isspace c = false)
  /\ (forall c,
         last_char (value (gather council_zoning_padded)
                      MEETING_TRANSCRIPT_TEXT) = Some c ->
         isspace c = false).
Proof.
  apply (gathered_values_are_trimmed council_zoning_padded
           MEETING_TRANSCRIPT_TEXT).
  discriminate.
Defined.
